(** * DFData: a pandas.DataFrame used as a time-series data source

    Shallow embedding of [pandapower/timeseries/data_sources/frame_data.py].

    The class [DFData] keeps a reference to a table owned by its caller and
    answers two queries against it: the value stored for a time step and a
    profile name (optionally scaled), and the number of time steps.

    The table, its label-based selection [.loc], [Index.astype(int)],
    [.values] and the in-place product [*=] belong to pandas and numpy.
    They are modelled here as far as the wrapper observes them:

    - labels are Python [int]s or [str]s, compared the way Python compares
      them (an [int] never equals a [str]), and an axis has the dtype that
      pandas infers from its labels;
    - cells are binary64 numbers (Rocq's primitive floats) or [str] objects,
      the latter standing for non-numeric content; integer columns are not
      modelled;
    - a [str] is a sequence of ASCII characters;
    - a time step and a profile name are scalar labels (not lists or
      slices), and a scale factor is a [float] or an [int] that fits a C
      [long];
    - a label that an axis does not carry is a [KeyError];
    - memory never runs out;
    - tables live in a store and are reached through references, so that
      the table of the caller and the table of the wrapper are one object;
    - what the two libraries leave open is a parameter of the development:
      how numpy prints an array of labels, and whether the array handed out
      by [.values] shares its buffer with the table. *)

From Stdlib Require Import ZArith String Ascii List Bool Sorted Floats.
From Stdlib Require Import DecimalString DecimalPos Lia.
From stdpp Require Import gmap.

Local Open Scope string_scope.

(** ** Python values *)

(** A row or column label. *)
Inductive label :=
  | LInt (z : Z)
  | LStr (s : string).

(** Python's [==] on labels. *)
Definition label_eqb (a b : label) : bool :=
  match a, b with
  | LInt x, LInt y => Z.eqb x y
  | LStr x, LStr y => String.eqb x y
  | _, _ => false
  end.

(** The content of one cell of the table. *)
Inductive cell :=
  | Num (x : float)
  | Str (s : string).

Definition is_num (c : cell) : bool :=
  match c with Num _ => true | Str _ => false end.

(** The exceptions that reach the caller.  [ReferenceError] is raised by the
    model alone, when a reference denotes no object of the store. *)
Inductive exn :=
  | KeyError (k : label)
  | TypeError
  | ValueError
  | OverflowError
  | ReferenceError.

Inductive result (A : Type) :=
  | Ok (a : A)
  | Raise (e : exn).
Arguments Ok {A} a.
Arguments Raise {A} e.

(** ** [int(s)] for a string [s]

    Surrounding white space is dropped, a sign may come first, and the
    decimal digits may be grouped by single underscores.  The white space
    of an ASCII string is that of C's [isspace]: the blank and the
    characters 9 to 13. *)

Definition is_ascii (s : string) : bool :=
  forallb (fun c => Nat.ltb (nat_of_ascii c) 128) (list_ascii_of_string s).

Definition is_space (c : ascii) : bool :=
  let n := nat_of_ascii c in
  Nat.eqb n 32 || (Nat.leb 9 n && Nat.leb n 13).

Fixpoint lstrip (s : list ascii) : list ascii :=
  match s with
  | c :: rest => if is_space c then lstrip rest else s
  | [] => []
  end.

Definition strip (s : list ascii) : list ascii :=
  rev (lstrip (rev (lstrip s))).

Definition digit_of (c : ascii) : option Z :=
  let n := nat_of_ascii c in
  if Nat.leb 48 n && Nat.leb n 57 then Some (Z.of_nat (n - 48)) else None.

Fixpoint parse_digits (acc : Z) (after_digit : bool) (s : list ascii) : option Z :=
  match s with
  | [] => if after_digit then Some acc else None
  | c :: rest =>
      if Ascii.eqb c "_"%char then
        if after_digit then parse_digits acc false rest else None
      else
        match digit_of c with
        | Some d => parse_digits (10 * acc + d)%Z true rest
        | None => None
        end
  end.

Definition int_of_str (s : string) : option Z :=
  match strip (list_ascii_of_string s) with
  | c :: rest =>
      if Ascii.eqb c "-"%char then Z.opp <$> parse_digits 0 false rest
      else if Ascii.eqb c "+"%char then parse_digits 0 false rest
      else parse_digits 0 false (c :: rest)
  | [] => None
  end.

(** [str(z)] for an integer [z]: its decimal digits, after a minus sign
    when it is negative. *)
Definition str_of_int (z : Z) : string :=
  NilEmpty.string_of_int (Z.to_int z).

(** The characters of a sequence of decimal digits, and the number the
    sequence denotes when it continues the number [acc]. *)
Definition digits (d : Decimal.uint) : list ascii :=
  list_ascii_of_string (NilEmpty.string_of_uint d).

Fixpoint uint_value (acc : Z) (d : Decimal.uint) : Z :=
  match d with
  | Decimal.Nil => acc
  | Decimal.D0 d => uint_value (10 * acc + 0) d
  | Decimal.D1 d => uint_value (10 * acc + 1) d
  | Decimal.D2 d => uint_value (10 * acc + 2) d
  | Decimal.D3 d => uint_value (10 * acc + 3) d
  | Decimal.D4 d => uint_value (10 * acc + 4) d
  | Decimal.D5 d => uint_value (10 * acc + 5) d
  | Decimal.D6 d => uint_value (10 * acc + 6) d
  | Decimal.D7 d => uint_value (10 * acc + 7) d
  | Decimal.D8 d => uint_value (10 * acc + 8) d
  | Decimal.D9 d => uint_value (10 * acc + 9) d
  end.

(** ** [Index.astype(int)]

    What the cast does depends on the dtype of the index.  pandas infers it
    from the labels: [int64] when all of them are integers of 64 bits,
    [uint64] when all of them are integers from 0 to 2^64 - 1 and one lies
    beyond the signed range, [object] otherwise, and so whenever a label is
    a [str] or the index is empty.

    An [int64] index keeps its labels.  A [uint64] index is reinterpreted:
    the labels from 2^63 on wrap around to negative numbers, and nothing is
    raised.  The labels of an [object] index are converted one after the
    other with [int] and stored as 64-bit integers: a string that [int]
    rejects is a [ValueError], a value outside the 64-bit range an
    [OverflowError].  pandas catches [TypeError] and [ValueError] around the
    conversion and raises a [TypeError] of its own ("Cannot cast Index to
    dtype"); any other exception passes through. *)

Definition int64_min : Z := (- 2 ^ 63)%Z.
Definition int64_max : Z := (2 ^ 63 - 1)%Z.
Definition uint64_max : Z := (2 ^ 64 - 1)%Z.

Definition in_int64 (z : Z) : bool :=
  Z.leb int64_min z && Z.leb z int64_max.

Definition in_uint64 (z : Z) : bool :=
  Z.leb 0 z && Z.leb z uint64_max.

Inductive dtype :=
  | int64
  | uint64
  | object.

Definition is_int64_label (l : label) : bool :=
  match l with LInt z => in_int64 z | LStr _ => false end.

Definition is_uint64_label (l : label) : bool :=
  match l with LInt z => in_uint64 z | LStr _ => false end.

Definition inferred_dtype (labels : list label) : dtype :=
  match labels with
  | [] => object
  | _ =>
      if forallb is_int64_label labels then int64
      else if forallb is_uint64_label labels then uint64
      else object
  end.

(** The 64 bits of an unsigned integer read as a signed one. *)
Definition wrap_int64 (z : Z) : Z :=
  ((z + 2 ^ 63) mod 2 ^ 64 - 2 ^ 63)%Z.

Definition reinterpret_label (l : label) : label :=
  match l with LInt z => LInt (wrap_int64 z) | LStr s => LStr s end.

(** One element of an [object] array: [int(l)], stored in 64 bits. *)
Definition int_of_label (l : label) : result Z :=
  let checked z := if in_int64 z then Ok z else Raise OverflowError in
  match l with
  | LInt z => checked z
  | LStr s =>
      match int_of_str s with
      | Some z => checked z
      | None => Raise ValueError
      end
  end.

Fixpoint ndarray_astype_int (labels : list label) : result (list label) :=
  match labels with
  | [] => Ok []
  | l :: rest =>
      match int_of_label l with
      | Ok z =>
          match ndarray_astype_int rest with
          | Ok rest' => Ok (LInt z :: rest')
          | Raise e => Raise e
          end
      | Raise e => Raise e
      end
  end.

Definition astype_int (labels : list label) : result (list label) :=
  match inferred_dtype labels with
  | int64 => Ok labels
  | uint64 => Ok (map reinterpret_label labels)
  | object =>
      match ndarray_astype_int labels with
      | Ok labels' => Ok labels'
      | Raise TypeError | Raise ValueError => Raise TypeError
      | Raise e => Raise e
      end
  end.

(** ** The table *)

(** A [pandas.DataFrame]: row labels, column labels, and the cells row by
    row.  A position is a pair (row number, column number). *)
Record DataFrame := {
  index : list label;
  columns : list label;
  data : list (list cell)
}.

(** Every [str] among the labels is made of ASCII characters, and of no
    more of them than any [int] reads: recent versions of Python refuse to
    convert a string of more than 4300 digits. *)
Definition max_str_digits : nat := 4300.

Definition plain_label (l : label) : bool :=
  match l with
  | LInt _ => true
  | LStr s => is_ascii s && Nat.leb (String.length s) max_str_digits
  end.

Definition plain_labels (t : DataFrame) : bool :=
  forallb plain_label (index t) && forallb plain_label (columns t).

(** The cell at a position; pandas fills what is missing with NaN. *)
Definition cell_at (t : DataFrame) (p : nat * nat) : cell :=
  match data t !! p.1 ≫= (fun row => row !! p.2) with
  | Some c => c
  | None => Num nan
  end.

Definition set_cell (t : DataFrame) (p : nat * nat) (c : cell) : DataFrame :=
  {| index := index t;
     columns := columns t;
     data := alter (fun row => <[p.2 := c]> row) p.1 (data t) |}.

(** [df.index = labels] and [df.columns = labels]. *)
Definition set_index (t : DataFrame) (labels : list label) : DataFrame :=
  {| index := labels; columns := columns t; data := data t |}.

Definition set_columns (t : DataFrame) (labels : list label) : DataFrame :=
  {| index := index t; columns := labels; data := data t |}.

(** The places of an axis that carry the label [k], in increasing order. *)
Fixpoint positions_from (n : nat) (k : label) (axis : list label) : list nat :=
  match axis with
  | [] => []
  | l :: rest =>
      if label_eqb l k then n :: positions_from (S n) k rest
      else positions_from (S n) k rest
  end.

Definition positions (k : label) (axis : list label) : list nat :=
  positions_from 0 k axis.

(** [Index.is_unique]: no label occurs twice. *)
Fixpoint is_unique (axis : list label) : bool :=
  match axis with
  | [] => true
  | l :: rest => negb (existsb (label_eqb l) rest) && is_unique rest
  end.

(** What [df.loc[r, c]] evaluates to for two scalar labels: a scalar when
    each label names one place, a [Series] when one of them names several,
    a [DataFrame] when both do.  A [Series] or [DataFrame] is kept as the
    positions it selects, in row and column order. *)
Inductive selection :=
  | SelScalar (c : cell)
  | SelSeries (ps : list (nat * nat))
  | SelFrame (pss : list (list (nat * nat))).

Definition select (t : DataFrame) (ii jj : list nat) : selection :=
  match ii, jj with
  | [i], [j] => SelScalar (cell_at t (i, j))
  | [i], _ => SelSeries (map (pair i) jj)
  | _, [j] => SelSeries (map (fun i => (i, j)) ii)
  | _, _ => SelFrame (map (fun i => map (pair i) jj) ii)
  end.

(** When no label occurs twice on either axis, [.loc] takes the path of a
    scalar access, which fetches the column and then the row: a missing
    profile name is reported before a missing time step.  Otherwise the
    rows are selected first and the columns out of them. *)
Definition loc (t : DataFrame) (r c : label) : result selection :=
  let ii := positions r (index t) in
  let jj := positions c (columns t) in
  if is_unique (index t) && is_unique (columns t) then
    match jj, ii with
    | [], _ => Raise (KeyError c)
    | _, [] => Raise (KeyError r)
    | _, _ => Ok (select t ii jj)
    end
  else
    match ii, jj with
    | [], _ => Raise (KeyError r)
    | _, [] => Raise (KeyError c)
    | _, _ => Ok (select t ii jj)
    end.

(** ** Arrays and the in-place product *)

(** What [get_time_step_value] returns: a scalar, or a numpy array of one
    or two dimensions. *)
Inductive value :=
  | Scalar (c : cell)
  | Array1 (cs : list cell)
  | Array2 (rows : list (list cell)).

(** A Python [int] that fits a C [long]. *)
Record long := {
  long_value : Z;
  long_range : in_int64 long_value = true
}.

(** A scale factor. *)
Inductive number :=
  | PyFloat (x : float)
  | PyInt (n : long).

(** The binary64 number nearest to an integer, ties to even. *)
Definition float_of_int (z : Z) : float :=
  SF2Prim (binary_normalize prec emax z 0 false).

(** The float that a scale factor multiplies a number by. *)
Definition float_of (scale_factor : number) : float :=
  match scale_factor with
  | PyFloat x => x
  | PyInt n => float_of_int (long_value n)
  end.

(** [s * n] for a [str] and an [int]: [n] copies of [s], none when [n] is
    not positive, and an [OverflowError] when the length of the result does
    not fit a [Py_ssize_t]. *)
Fixpoint repeat_str (s : string) (n : nat) : string :=
  match n with
  | O => ""
  | S n' => s ++ repeat_str s n'
  end.

Definition str_mul (s : string) (n : Z) : result string :=
  if Z.leb n 0 then Ok ""
  else if Z.ltb (int64_max / n) (Z.of_nat (String.length s)) then Raise OverflowError
  else Ok (repeat_str s (Z.to_nat n)).

(** [c * scale_factor] for one Python object.  A number gives the binary64
    product, an [int] being converted first.  A [str] is repeated by an
    [int] and cannot be multiplied by a [float], which is a [TypeError]. *)
Definition mul_cell (c : cell) (scale_factor : number) : result cell :=
  match c, scale_factor with
  | Num x, _ => Ok (Num (x * float_of scale_factor)%float)
  | Str s, PyInt n =>
      match str_mul s (long_value n) with
      | Ok s' => Ok (Str s')
      | Raise e => Raise e
      end
  | Str _, PyFloat _ => Raise TypeError
  end.

(** [buf *= scale_factor] on a one-dimensional buffer.  The elements are
    overwritten from left to right; the first one that cannot be multiplied
    stops the loop and leaves the rest as it was. *)
Fixpoint imul_1d (buf : list cell) (scale_factor : number) : list cell * option exn :=
  match buf with
  | [] => ([], None)
  | c :: rest =>
      match mul_cell c scale_factor with
      | Ok c' =>
          let '(rest', e) := imul_1d rest scale_factor in (c' :: rest', e)
      | Raise e => (buf, Some e)
      end
  end.

(** The same on two dimensions, row after row. *)
Fixpoint imul_2d (buf : list (list cell)) (scale_factor : number)
  : list (list cell) * option exn :=
  match buf with
  | [] => ([], None)
  | row :: rest =>
      match imul_1d row scale_factor with
      | (row', None) =>
          let '(rest', e) := imul_2d rest scale_factor in (row' :: rest', e)
      | (row', Some e) => (row' :: rest, Some e)
      end
  end.

(** Reading the cells of a selection, and storing a buffer back at the
    positions it was read from. *)
Definition values_1d (t : DataFrame) (ps : list (nat * nat)) : list cell :=
  map (cell_at t) ps.

Definition values_2d (t : DataFrame) (pss : list (list (nat * nat))) : list (list cell) :=
  map (values_1d t) pss.

Fixpoint put_1d (t : DataFrame) (ps : list (nat * nat)) (buf : list cell) : DataFrame :=
  match ps, buf with
  | p :: ps', c :: buf' => put_1d (set_cell t p c) ps' buf'
  | _, _ => t
  end.

Fixpoint put_2d (t : DataFrame) (pss : list (list (nat * nat))) (buf : list (list cell))
  : DataFrame :=
  match pss, buf with
  | ps :: pss', row :: buf' => put_2d (put_1d t ps row) pss' buf'
  | _, _ => t
  end.

(** The scaled copy of a value, number by number. *)
Definition scale_cell (scale_factor : float) (c : cell) : cell :=
  match c with
  | Num x => Num (x * scale_factor)%float
  | Str s => Str s
  end.

Definition scale_value (scale_factor : float) (v : value) : value :=
  match v with
  | Scalar c => Scalar (scale_cell scale_factor c)
  | Array1 cs => Array1 (map (scale_cell scale_factor) cs)
  | Array2 rows => Array2 (map (map (scale_cell scale_factor)) rows)
  end.

(** The cells a selection denotes in a table, in the shape [.values] gives
    them. *)
Definition stored (t : DataFrame) (sel : selection) : value :=
  match sel with
  | SelScalar c => Scalar c
  | SelSeries ps => Array1 (values_1d t ps)
  | SelFrame pss => Array2 (values_2d t pss)
  end.

(** The cells of a value, row after row. *)
Definition cells_of (v : value) : list cell :=
  match v with
  | Scalar c => [c]
  | Array1 cs => cs
  | Array2 rows => concat rows
  end.

(** ** The store and the monad of the methods *)

(** References to tables, and the store they point into. *)
Definition ref := positive.
Abbreviation store := (gmap ref DataFrame).

(** A computation reads and writes the store and returns or raises; what
    it wrote before raising stays written. *)
Definition M (A : Type) : Type := store -> store * result A.

#[global] Instance M_ret : MRet M := fun A a σ => (σ, Ok a).

#[global] Instance M_bind : MBind M := fun A B f m σ =>
  match m σ with
  | (σ', Ok a) => f a σ'
  | (σ', Raise e) => (σ', Raise e)
  end.

Definition raise {A : Type} (e : exn) : M A := fun σ => (σ, Raise e).

Definition lift {A : Type} (r : result A) : M A := fun σ => (σ, r).

Definition read (r : ref) : M DataFrame := fun σ =>
  match σ !! r with
  | Some t => (σ, Ok t)
  | None => (σ, Raise ReferenceError)
  end.

Definition write (r : ref) (t : DataFrame) : M unit := fun σ =>
  (<[r := t]> σ, Ok tt).

(** ** Python's formatting *)

(** [%d] applied to a length. *)
Definition fmt_d (n : nat) : string :=
  NilEmpty.string_of_uint (Nat.to_uint n).

(** [sub] occurs in [s]. *)
Definition contains (sub s : string) : Prop :=
  exists pre post, s = pre ++ sub ++ post.

(** ** Tables and parameters of the examples *)

(** Three time steps and two profiles. *)
Definition profiles : DataFrame :=
  {| index := [LInt 0; LInt 1; LInt 2];
     columns := [LStr "p1"; LStr "p2"];
     data := [[Num 1; Num 2]; [Num 3; Num 4]; [Num 5; Num 6]]%float |}.

(** The same after another holder dropped the last time step and changed
    a cell. *)
Definition profiles_later : DataFrame :=
  {| index := [LInt 0; LInt 1];
     columns := [LStr "p1"; LStr "p2"];
     data := [[Num 1; Num 2]; [Num 3; Num 7]]%float |}.

(** A table as read from a csv file: every label is a string. *)
Definition csv_table : DataFrame :=
  {| index := [LStr "0"; LStr "1"; LStr "2"];
     columns := [LStr "0"; LStr "1"; LStr "2"];
     data := [[Num 1; Num 2; Num 3]; [Num 4; Num 5; Num 6]; [Num 7; Num 8; Num 9]]%float |}.

Definition csv_table_cast : DataFrame :=
  {| index := [LInt 0; LInt 1; LInt 2];
     columns := [LInt 0; LInt 1; LInt 2];
     data := data csv_table |}.

(** A column label that is not a number. *)
Definition named_columns : DataFrame :=
  {| index := [LStr "0"; LStr "1"];
     columns := [LStr "0"; LStr "load"];
     data := [[Num 1; Num 2]; [Num 3; Num 4]]%float |}.

(** A row label that is not a number. *)
Definition named_rows : DataFrame :=
  {| index := [LStr "0"; LStr "total"];
     columns := [LStr "0"; LStr "1"];
     data := [[Num 1; Num 2]; [Num 3; Num 4]]%float |}.

(** [named_columns] with its row labels cast. *)
Definition named_columns_half_cast : DataFrame :=
  {| index := [LInt 0; LInt 1];
     columns := [LStr "0"; LStr "load"];
     data := data named_columns |}.

(** Two columns share the label "a". *)
Definition twin_columns : DataFrame :=
  {| index := [LInt 0];
     columns := [LStr "a"; LStr "a"; LStr "b"];
     data := [[Num 1; Num 2; Num 3]]%float |}.

Definition twin_columns_scaled : DataFrame :=
  {| index := [LInt 0];
     columns := [LStr "a"; LStr "a"; LStr "b"];
     data := [[Num 2; Num 4; Num 3]]%float |}.

(** Two rows share the label 0. *)
Definition twin_rows : DataFrame :=
  {| index := [LInt 0; LInt 0];
     columns := [LStr "p"];
     data := [[Num 1]; [Num 2]]%float |}.

(** Row labels that neither start at 0 nor follow each other. *)
Definition sparse_steps : DataFrame :=
  {| index := [LInt 10; LInt 20; LInt 40];
     columns := [LStr "p"];
     data := [[Num 1]; [Num 2]; [Num 3]]%float |}.

(** A cell that holds text. *)
Definition text_cells : DataFrame :=
  {| index := [LInt 0];
     columns := [LStr "p1"; LStr "note"];
     data := [[Num 1%float; Str "n/a"]] |}.

(** The integer 2 as a scale factor. *)
Definition long_2 : long := {| long_value := 2; long_range := eq_refl |}.

(** The two answers to whether [.values] shares the buffer of the table. *)
Definition copies (_ : DataFrame) (_ _ : label) : bool := false.
Definition views (_ : DataFrame) (_ _ : label) : bool := true.

(** A printer for small arrays of labels: the elements, strings in quotes,
    separated by blanks and enclosed in brackets. *)
Definition label_str (l : label) : string :=
  match l with
  | LInt z => str_of_int z
  | LStr s => "'" ++ s ++ "'"
  end.

Definition plain_ndarray_str (labels : list label) : string :=
  "[" ++ String.concat " " (map label_str labels) ++ "]".

(** ** The class [DFData] *)

(** An instance holds one field, the reference [self.df]. *)
Record DFData := { df : ref }.

(** [self.__class__.__name__] *)
Definition class_name : string := "DFData".

(** The default of [scale_factor]. *)
Definition default_scale_factor : number := PyFloat 1.

Section Methods.

(** [str] of a numpy array of labels. *)
Variable ndarray_str : list label -> string.

(** Whether the array that [.values] returns for [df.loc[r, c]] is a view
    of the table's own buffer rather than a copy of the selected cells.
    pandas decides this from the way it stores the table: a selection out of
    a table kept in a single block can be a view, a selection that has to
    gather its cells is a copy. *)
Variable shares_memory : DataFrame -> label -> label -> bool.

(** [DFData(df, multi)].  The constructor of the base class [DataSource]
    lies outside this file and is taken to leave the table alone.  With
    [multi], the row labels are cast first and assigned to the table, then
    the column labels. *)
Definition __init__ (df_ : ref) (multi : bool) : M DFData :=
  let self := {| df := df_ |} in
  if multi then
    t ← read (df self);
    labels ← lift (astype_int (index t));
    _ ← write (df self) (set_index t labels);
    t ← read (df self);
    labels ← lift (astype_int (columns t));
    _ ← write (df self) (set_columns t labels);
    mret self
  else
    mret self.

Definition __repr__ (self : DFData) : M string :=
  t ← read (df self);
  let s := class_name ++ " with " ++ fmt_d (length (index t)) ++ " rows and "
           ++ fmt_d (length (columns t)) ++ " columns" in
  if Nat.leb (length (columns t)) 10 then
    mret (s ++ ": " ++ ndarray_str (columns t))
  else
    mret s.

(** A scalar has no attribute [values] and [*=] rebinds [res] to the
    product.  A [Series] or [DataFrame] has one: [res] becomes its array
    and [*=] multiplies that array in place, which also rewrites the table
    when the two share their buffer. *)
Definition get_time_step_value (self : DFData) (time_step profile_name : label)
    (scale_factor : number) : M value :=
  t ← read (df self);
  res ← lift (loc t time_step profile_name);
  match res with
  | SelScalar c =>
      res ← lift (mul_cell c scale_factor);
      mret (Scalar res)
  | SelSeries ps =>
      let '(res, failure) := imul_1d (values_1d t ps) scale_factor in
      _ ← (if shares_memory t time_step profile_name
           then write (df self) (put_1d t ps res) else mret tt);
      match failure with
      | Some e => raise e
      | None => mret (Array1 res)
      end
  | SelFrame pss =>
      let '(res, failure) := imul_2d (values_2d t pss) scale_factor in
      _ ← (if shares_memory t time_step profile_name
           then write (df self) (put_2d t pss res) else mret tt);
      match failure with
      | Some e => raise e
      | None => mret (Array2 res)
      end
  end.

Definition get_time_steps_len (self : DFData) : M nat :=
  t ← read (df self);
  mret (length (index t)).

(** ** Labels and positions *)

Lemma label_eqb_eq (a b : label) : label_eqb a b = true <-> a = b.
Proof.
  destruct a as [x|x], b as [y|y]; simpl; split; try congruence.
  - intros H. apply Z.eqb_eq in H. congruence.
  - intros [= ->]. apply Z.eqb_refl.
  - intros H. apply String.eqb_eq in H. congruence.
  - intros [= ->]. apply String.eqb_refl.
Qed.

Lemma elem_of_positions_from (n : nat) (k : label) (axis : list label) (i : nat) :
  i ∈ positions_from n k axis <-> exists m, i = n + m /\ axis !! m = Some k.
Proof.
  revert n. induction axis as [|l axis IH]; intros n; simpl.
  - split; [intros H; inversion H | intros (m & _ & H); discriminate].
  - destruct (label_eqb l k) eqn:E.
    + apply label_eqb_eq in E. subst l. rewrite elem_of_cons, IH. split.
      * intros [-> | (m & -> & H)]; [exists 0 | exists (S m)]; split; simpl; auto; lia.
      * intros ([|m] & -> & H); [left; lia | right; exists m; split; auto; lia].
    + assert (l <> k) as Hne by (intros ->; rewrite (proj2 (label_eqb_eq k k)) in E; congruence).
      rewrite IH. split.
      * intros (m & -> & H). exists (S m). split; simpl; auto; lia.
      * intros ([|m] & -> & H); simpl in H; [congruence | exists m; split; auto; lia].
Qed.

Lemma elem_of_positions (k : label) (axis : list label) (i : nat) :
  i ∈ positions k axis <-> axis !! i = Some k.
Proof.
  unfold positions. rewrite elem_of_positions_from. split.
  - intros (m & -> & H). exact H.
  - intros H. exists i. auto.
Qed.

Lemma positions_from_sorted (n : nat) (k : label) (axis : list label) :
  StronglySorted lt (positions_from n k axis).
Proof.
  revert n. induction axis as [|l axis IH]; intros n; simpl.
  - constructor.
  - destruct (label_eqb l k); [|apply IH].
    constructor; [apply IH|].
    apply Forall_forall. intros i Hi.
    apply elem_of_positions_from in Hi. destruct Hi as (m & -> & _). lia.
Qed.

Lemma positions_sorted (k : label) (axis : list label) :
  StronglySorted lt (positions k axis).
Proof. apply positions_from_sorted. Qed.

(** A strictly increasing list is determined by its elements. *)
Lemma increasing_ext (l1 l2 : list nat) :
  StronglySorted lt l1 -> StronglySorted lt l2 ->
  (forall x, x ∈ l1 <-> x ∈ l2) -> l1 = l2.
Proof.
  intros H1. revert l2. induction H1 as [|a l1 H1 IH Ha]; intros l2 H2 Hel.
  - destruct l2 as [|b l2]; [reflexivity|].
    exfalso. apply (not_elem_of_nil b). apply Hel. left.
  - destruct H2 as [|b l2 H2 Hb].
    { exfalso. apply (not_elem_of_nil a). apply Hel. left. }
    rewrite Forall_forall in Ha, Hb.
    assert (a = b) as <-.
    { assert (a ∈ b :: l2) as Hab by (apply Hel; left).
      assert (b ∈ a :: l1) as Hba by (apply Hel; left).
      apply elem_of_cons in Hab, Hba.
      destruct Hab as [?|Hab]; [assumption|].
      destruct Hba as [?|Hba]; [congruence|].
      apply Hb in Hab. apply Ha in Hba. lia. }
    f_equal. apply IH; [assumption|].
    intros x. split; intros Hx.
    + assert (x ∈ a :: l2) as Hx' by (apply Hel; right; assumption).
      apply elem_of_cons in Hx'. destruct Hx' as [->|?]; [|assumption].
      apply Ha in Hx. lia.
    + assert (x ∈ a :: l1) as Hx' by (apply Hel; right; assumption).
      apply elem_of_cons in Hx'. destruct Hx' as [->|?]; [|assumption].
      apply Hb in Hx. lia.
Qed.

(** [positions] is the increasing enumeration of the places labelled [k]. *)
Lemma positions_unique (k : label) (axis : list label) (jj : list nat) :
  StronglySorted lt jj ->
  (forall j, j ∈ jj <-> axis !! j = Some k) ->
  positions k axis = jj.
Proof.
  intros Hs Hel. apply increasing_ext; [apply positions_sorted | assumption |].
  intros j. rewrite elem_of_positions, Hel. reflexivity.
Qed.

Lemma positions_single (k : label) (axis : list label) (i : nat) :
  (forall i', axis !! i' = Some k <-> i' = i) ->
  positions k axis = [i].
Proof.
  intros H. apply positions_unique.
  - repeat constructor.
  - intros j. rewrite H, list_elem_of_singleton. reflexivity.
Qed.

Lemma positions_nil (k : label) (axis : list label) :
  positions k axis = [] <-> k ∉ axis.
Proof.
  split.
  - intros H Hin. apply list_elem_of_lookup in Hin. destruct Hin as [i Hi].
    apply elem_of_positions in Hi. rewrite H in Hi. inversion Hi.
  - intros Hn. destruct (positions k axis) as [|i l] eqn:E; [reflexivity|].
    exfalso. apply Hn.
    assert (i ∈ positions k axis) as Hi by (rewrite E; left).
    apply elem_of_positions in Hi. eapply list_elem_of_lookup_2; eauto.
Qed.

(** ** [int] reads what [str] writes *)

Lemma parse_digits_uint (d : Decimal.uint) (acc : Z) (after_digit : bool) :
  d <> Decimal.Nil \/ after_digit = true ->
  parse_digits acc after_digit (digits d) = Some (uint_value acc d).
Proof.
  revert acc after_digit.
  induction d as [|d IH|d IH|d IH|d IH|d IH|d IH|d IH|d IH|d IH|d IH];
    intros acc after_digit H;
    [destruct H as [H| ->]; [congruence | reflexivity] | ..];
    apply (IH _ true); now right.
Qed.

Lemma uint_value_pos (d : Decimal.uint) (a : positive) :
  uint_value (Z.pos a) d = Z.pos (Pos.of_uint_acc d a).
Proof.
  revert a.
  induction d as [|d IH|d IH|d IH|d IH|d IH|d IH|d IH|d IH|d IH|d IH];
    intros a; simpl; [reflexivity | ..]; rewrite <- IH; f_equal; lia.
Qed.

Lemma uint_value_zero (d : Decimal.uint) :
  uint_value 0 d = Z.of_N (Pos.of_uint d).
Proof.
  induction d as [|d IH|d IH|d IH|d IH|d IH|d IH|d IH|d IH|d IH|d IH];
    simpl; [reflexivity | exact IH | ..]; apply (uint_value_pos d).
Qed.

Lemma digits_no_space (d : Decimal.uint) :
  Forall (fun c => is_space c = false) (digits d).
Proof. induction d; simpl; constructor; (reflexivity || assumption). Qed.

Lemma lstrip_no_space (s : list ascii) :
  Forall (fun c => is_space c = false) s -> lstrip s = s.
Proof. destruct 1 as [|c s Hc _]; simpl; [|rewrite Hc]; reflexivity. Qed.

Lemma strip_no_space (s : list ascii) :
  Forall (fun c => is_space c = false) s -> strip s = s.
Proof.
  intros H. unfold strip. rewrite (lstrip_no_space s H).
  rewrite lstrip_no_space; [apply rev_involutive|].
  now apply Forall_rev.
Qed.

Lemma int_of_str_str_of_int (z : Z) : int_of_str (str_of_int z) = Some z.
Proof.
  unfold int_of_str, str_of_int. destruct z as [|p|p]; [reflexivity | |].
  - simpl. fold (digits (Pos.to_uint p)).
    rewrite (strip_no_space _ (digits_no_space _)).
    pose proof (DecimalPos.Unsigned.of_to p) as Hp.
    assert (Pos.to_uint p <> Decimal.Nil) as Hne
      by (intros E; rewrite E in Hp; discriminate).
    pose proof (parse_digits_uint (Pos.to_uint p) 0 false (or_introl Hne)) as Hparse.
    rewrite uint_value_zero, Hp in Hparse. simpl in Hparse.
    destruct (Pos.to_uint p); try congruence; exact Hparse.
  - simpl.
    change (list_ascii_of_string (String "-" (NilEmpty.string_of_uint (Pos.to_uint p))))
      with ("-"%char :: digits (Pos.to_uint p)).
    rewrite strip_no_space by (constructor; [reflexivity | apply digits_no_space]).
    pose proof (DecimalPos.Unsigned.of_to p) as Hp.
    assert (Pos.to_uint p <> Decimal.Nil) as Hne
      by (intros E; rewrite E in Hp; discriminate).
    cbv beta iota. change (Ascii.eqb "-"%char "-"%char) with true. cbv iota.
    fold (digits (Pos.to_uint p)).
    rewrite (parse_digits_uint (Pos.to_uint p) 0 false (or_introl Hne)).
    rewrite uint_value_zero, Hp. reflexivity.
Qed.

(** The decimal string of a 64-bit integer converts to that integer. *)
Lemma int_of_label_str_of_int (z : Z) :
  in_int64 z = true -> int_of_label (LStr (str_of_int z)) = Ok z.
Proof.
  intros Hz. unfold int_of_label. now rewrite int_of_str_str_of_int, Hz.
Qed.

(** ** binary64: the product with 1.0 is exact *)

Lemma Prim2SF_one : Prim2SF 1 = S754_finite false 4503599627370496 (-52).
Proof. reflexivity. Qed.

Lemma digits2_pos_shift (m : positive) :
  Z.pos (digits2_pos (4503599627370496 * m)) = (Z.pos (digits2_pos m) + 52)%Z.
Proof. cbv [Pos.mul]. cbn [digits2_pos]. rewrite !Pos2Z.inj_succ. lia. Qed.

Lemma shr_shift (m : positive) :
  SpecFloat.iter_pos shr_1 52
    (shr_record_of_loc (Z.pos (4503599627370496 * m)) loc_Exact)
  = shr_record_of_loc (Z.pos m) loc_Exact.
Proof. reflexivity. Qed.

Lemma SF64mul_one_r (x : spec_float) :
  valid_binary x = true ->
  SF64mul x (S754_finite false 4503599627370496 (-52)) = x.
Proof.
  destruct x as [sx|sx| |sx m e]; simpl; intros Hvalid.
  - now destruct sx.
  - now destruct sx.
  - reflexivity.
  - unfold SpecFloat.bounded, canonical_mantissa in Hvalid.
    apply andb_prop in Hvalid. destruct Hvalid as [Hcanon Hbound].
    apply Z.eqb_eq in Hcanon.
    unfold SF64mul, SFmul. rewrite Pos.mul_comm.
    unfold binary_round_aux, shr_fexp.
    unfold Zdigits2 at 1. rewrite digits2_pos_shift.
    replace (Z.pos (digits2_pos m) + 52 + (e + -52))%Z
      with (Z.pos (digits2_pos m) + e)%Z by lia.
    rewrite Hcanon.
    replace (e - (e + -52))%Z with 52%Z by lia.
    unfold shr at 1. rewrite shr_shift.
    cbn [shr_record_of_loc shr_m loc_of_shr_record round_nearest_even Zdigits2].
    replace (e + -52 + 52)%Z with e by lia.
    rewrite Hcanon, Z.sub_diag.
    cbn [shr shr_record_of_loc shr_m].
    rewrite Hbound. now destruct sx.
Qed.

Lemma mul_one_r (x : float) : (x * 1)%float = x.
Proof.
  apply Prim2SF_inj. rewrite mul_spec, Prim2SF_one.
  apply SF64mul_one_r, Prim2SF_valid.
Qed.

Lemma scale_cell_one (c : cell) : scale_cell 1 c = c.
Proof. destruct c; simpl; [rewrite mul_one_r|]; reflexivity. Qed.

Lemma map_scale_cell_one (cs : list cell) : map (scale_cell 1) cs = cs.
Proof.
  induction cs as [|c cs IH]; simpl; [|rewrite scale_cell_one, IH]; reflexivity.
Qed.

Lemma scale_value_one (v : value) : scale_value 1 v = v.
Proof.
  destruct v as [c|cs|rows]; simpl.
  - now rewrite scale_cell_one.
  - now rewrite map_scale_cell_one.
  - f_equal. induction rows as [|row rows IH]; simpl;
      [|rewrite map_scale_cell_one, IH]; reflexivity.
Qed.

(** ** The in-place product *)

(** A number is multiplied by any scale factor. *)
Lemma mul_cell_num (c : cell) (s : number) :
  is_num c = true -> mul_cell c s = Ok (scale_cell (float_of s) c).
Proof. destruct c; simpl; [reflexivity | discriminate]. Qed.

(** A [str] is not multiplied by a float. *)
Lemma mul_cell_str (c : cell) (s : float) :
  is_num c = false -> mul_cell c (PyFloat s) = Raise TypeError.
Proof. destruct c; simpl; [discriminate | reflexivity]. Qed.

Lemma imul_1d_numeric (buf : list cell) (s : number) :
  Forall (fun c => is_num c = true) buf ->
  imul_1d buf s = (map (scale_cell (float_of s)) buf, None).
Proof.
  induction 1 as [|c buf Hc _ IH]; simpl; [reflexivity|].
  rewrite (mul_cell_num _ _ Hc), IH. reflexivity.
Qed.

Lemma imul_1d_str (buf : list cell) (s : float) :
  Exists (fun c => is_num c = false) buf ->
  (imul_1d buf (PyFloat s)).2 = Some TypeError.
Proof.
  induction 1 as [c buf Hc|c buf _ IH]; simpl.
  - rewrite (mul_cell_str _ _ Hc). reflexivity.
  - destruct (mul_cell c (PyFloat s)) as [c'|e] eqn:E.
    + destruct (imul_1d buf (PyFloat s)). exact IH.
    + destruct c; simpl in *; congruence.
Qed.

Lemma imul_1d_failure (buf : list cell) (s : float) (e : exn) :
  (imul_1d buf (PyFloat s)).2 = Some e -> e = TypeError.
Proof.
  induction buf as [|c buf IH]; simpl; [discriminate|].
  destruct c as [x|x]; simpl.
  - destruct (imul_1d buf (PyFloat s)). exact IH.
  - congruence.
Qed.

Lemma imul_2d_numeric (buf : list (list cell)) (s : number) :
  Forall (Forall (fun c => is_num c = true)) buf ->
  imul_2d buf s = (map (map (scale_cell (float_of s))) buf, None).
Proof.
  induction 1 as [|row buf Hrow _ IH]; simpl; [reflexivity|].
  rewrite (imul_1d_numeric _ _ Hrow), IH. reflexivity.
Qed.

Lemma imul_2d_str (buf : list (list cell)) (s : float) :
  Exists (Exists (fun c => is_num c = false)) buf ->
  (imul_2d buf (PyFloat s)).2 = Some TypeError.
Proof.
  induction 1 as [row buf Hrow|row buf _ IH]; simpl.
  - pose proof (imul_1d_str _ s Hrow) as H.
    destruct (imul_1d row (PyFloat s)) as [row' [e|]]; simpl in *; [|discriminate].
    congruence.
  - destruct (imul_1d row (PyFloat s)) as [row' [e|]] eqn:E.
    + simpl. f_equal. apply (imul_1d_failure row s). now rewrite E.
    + destruct (imul_2d buf (PyFloat s)). exact IH.
Qed.

(** ** What the methods compute from the table they read *)

Ltac run H :=
  unfold get_time_step_value, get_time_steps_len, __repr__, __init__,
    mbind, M_bind, read, write, lift, raise, mret, M_ret;
  simpl; rewrite ?H; simpl.

Lemma get_time_step_value_result (σ : store) (self : DFData) (t : DataFrame)
    (ts pn : label) (s : number) :
  σ !! df self = Some t ->
  (get_time_step_value self ts pn s σ).2 =
    match loc t ts pn with
    | Raise e => Raise e
    | Ok (SelScalar c) =>
        match mul_cell c s with Ok c' => Ok (Scalar c') | Raise e => Raise e end
    | Ok (SelSeries ps) =>
        match imul_1d (values_1d t ps) s with
        | (res, None) => Ok (Array1 res)
        | (_, Some e) => Raise e
        end
    | Ok (SelFrame pss) =>
        match imul_2d (values_2d t pss) s with
        | (res, None) => Ok (Array2 res)
        | (_, Some e) => Raise e
        end
    end.
Proof.
  intros Hσ. run Hσ.
  destruct (loc t ts pn) as [[c|ps|pss]|e]; simpl; [| | |reflexivity].
  - destruct (mul_cell c s); reflexivity.
  - destruct (imul_1d (values_1d t ps) s) as [res [e|]];
      destruct (shares_memory t ts pn); reflexivity.
  - destruct (imul_2d (values_2d t pss) s) as [res [e|]];
      destruct (shares_memory t ts pn); reflexivity.
Qed.

(** ** Selections *)

(** The positions a selection was taken from. *)
Lemma elem_of_row_positions (i : nat) (jj : list nat) (p : nat * nat) :
  p ∈ map (pair i) jj <-> p.1 = i /\ p.2 ∈ jj.
Proof.
  induction jj as [|j jj IH]; simpl.
  - rewrite !elem_of_nil. tauto.
  - rewrite !elem_of_cons, IH. destruct p as [a b]; simpl.
    split; [intros [[= -> ->]|[-> ?]] | intros [-> [->|?]]]; auto.
Qed.

Lemma elem_of_column_positions (ii : list nat) (j : nat) (p : nat * nat) :
  p ∈ map (fun i => (i, j)) ii <-> p.1 ∈ ii /\ p.2 = j.
Proof.
  induction ii as [|i ii IH]; simpl.
  - rewrite !elem_of_nil. tauto.
  - rewrite !elem_of_cons, IH. destruct p as [a b]; simpl.
    split; [intros [[= -> ->]|[? ->]] | intros [[->|?] ->]]; auto.
Qed.

Lemma values_1d_numeric (t : DataFrame) (ps : list (nat * nat)) :
  (forall p, p ∈ ps -> is_num (cell_at t p) = true) ->
  Forall (fun c => is_num c = true) (values_1d t ps).
Proof.
  induction ps as [|p ps IH]; intros H; simpl; constructor.
  - apply H. left.
  - apply IH. intros q Hq. apply H. now right.
Qed.

Lemma values_2d_numeric (t : DataFrame) (pss : list (list (nat * nat))) :
  (forall ps p, ps ∈ pss -> p ∈ ps -> is_num (cell_at t p) = true) ->
  Forall (Forall (fun c => is_num c = true)) (values_2d t pss).
Proof.
  induction pss as [|ps pss IH]; intros H; simpl; constructor.
  - apply values_1d_numeric. intros p Hp. apply (H ps); [left | assumption].
  - apply IH. intros qs q Hqs Hq. apply (H qs); [now right | assumption].
Qed.

Lemma elem_of_frame_positions (ii jj : list nat) (ps : list (nat * nat)) (p : nat * nat) :
  ps ∈ map (fun i => map (pair i) jj) ii -> p ∈ ps -> p.1 ∈ ii /\ p.2 ∈ jj.
Proof.
  induction ii as [|i ii IH]; simpl; intros Hps Hp.
  - now apply elem_of_nil in Hps.
  - apply elem_of_cons in Hps. destruct Hps as [->|Hps].
    + apply elem_of_row_positions in Hp. destruct Hp as [-> ?].
      split; [left | assumption].
    + destruct (IH Hps Hp). split; [now right | assumption].
Qed.

(** The two paths of [loc] differ only in the label they report when both
    are missing. *)
Lemma loc_cases (t : DataFrame) (r c : label) :
  loc t r c =
    match positions r (index t), positions c (columns t) with
    | [], [] =>
        Raise (KeyError (if is_unique (index t) && is_unique (columns t) then c else r))
    | [], _ => Raise (KeyError r)
    | _, [] => Raise (KeyError c)
    | [i], [j] => Ok (SelScalar (cell_at t (i, j)))
    | [i], j :: j' :: jj => Ok (SelSeries (map (pair i) (j :: j' :: jj)))
    | i :: i' :: ii, [j] => Ok (SelSeries (map (fun i => (i, j)) (i :: i' :: ii)))
    | i :: i' :: ii, j :: j' :: jj =>
        Ok (SelFrame (map (fun i => map (pair i) (j :: j' :: jj)) (i :: i' :: ii)))
    end.
Proof.
  unfold loc, select.
  destruct (is_unique (index t) && is_unique (columns t));
    destruct (positions r (index t)) as [|i [|i' ii]];
    destruct (positions c (columns t)) as [|j [|j' jj]]; reflexivity.
Qed.

(** A lookup succeeds exactly when both labels are present. *)
Lemma loc_present (t : DataFrame) (ts pn : label) :
  ts ∈ index t -> pn ∈ columns t -> exists sel, loc t ts pn = Ok sel.
Proof.
  intros Hts Hpn. rewrite loc_cases.
  destruct (positions ts (index t)) as [|i [|i' ii]] eqn:Ei.
  { apply positions_nil in Ei. contradiction. }
  all: destruct (positions pn (columns t)) as [|j [|j' jj]] eqn:Ej;
    [apply positions_nil in Ej; contradiction | eauto..].
Qed.

(** Otherwise it raises [KeyError] for a label that is missing. *)
Lemma loc_absent (t : DataFrame) (ts pn : label) :
  ts ∉ index t \/ pn ∉ columns t ->
  exists k,
    ((k = ts /\ ts ∉ index t) \/ (k = pn /\ pn ∉ columns t))
    /\ loc t ts pn = Raise (KeyError k).
Proof.
  intros H. rewrite loc_cases.
  destruct (positions ts (index t)) as [|i ii] eqn:Ei;
    destruct (positions pn (columns t)) as [|j jj] eqn:Ej.
  - apply positions_nil in Ei, Ej.
    destruct (is_unique (index t) && is_unique (columns t)); eauto.
  - apply positions_nil in Ei. eauto.
  - apply positions_nil in Ej. exists pn. split; [now right|].
    destruct ii; reflexivity.
  - exfalso. destruct H as [H|H]; apply positions_nil in H; congruence.
Qed.

(** Every cell of a selection carries the two labels it was asked for. *)
Lemma loc_numeric (t : DataFrame) (ts pn : label) (sel : selection) (s : number) :
  loc t ts pn = Ok sel ->
  (forall i j, index t !! i = Some ts -> columns t !! j = Some pn ->
               is_num (cell_at t (i, j)) = true) ->
  match sel with
  | SelScalar c => mul_cell c s = Ok (scale_cell (float_of s) c)
  | SelSeries ps =>
      imul_1d (values_1d t ps) s = (map (scale_cell (float_of s)) (values_1d t ps), None)
  | SelFrame pss =>
      imul_2d (values_2d t pss) s
      = (map (map (scale_cell (float_of s))) (values_2d t pss), None)
  end.
Proof.
  intros Hloc Hnum.
  assert (forall p, p.1 ∈ positions ts (index t) -> p.2 ∈ positions pn (columns t) ->
                    is_num (cell_at t p) = true) as Hpos.
  { intros [i j] Hi Hj. apply Hnum; now apply elem_of_positions. }
  clear Hnum. rewrite loc_cases in Hloc.
  destruct (positions ts (index t)) as [|i [|i' ii]];
    destruct (positions pn (columns t)) as [|j [|j' jj]];
    try discriminate; injection Hloc as <-.
  - apply mul_cell_num, Hpos; simpl; left.
  - apply imul_1d_numeric, values_1d_numeric. intros p Hp.
    apply (elem_of_row_positions i (j :: j' :: jj)) in Hp. destruct Hp as [Hi Hj].
    apply Hpos; [rewrite Hi; left | assumption].
  - apply imul_1d_numeric, values_1d_numeric. intros p Hp.
    apply (elem_of_column_positions (i :: i' :: ii) j) in Hp. destruct Hp as [Hi Hj].
    apply Hpos; [assumption | rewrite Hj; left].
  - apply imul_2d_numeric, values_2d_numeric. intros ps p Hps Hp.
    destruct (elem_of_frame_positions (i :: i' :: ii) (j :: j' :: jj) _ _ Hps Hp).
    now apply Hpos.
Qed.

Lemma loc_single (t : DataFrame) (ts pn : label) (i j : nat) :
  (forall i', index t !! i' = Some ts <-> i' = i) ->
  (forall j', columns t !! j' = Some pn <-> j' = j) ->
  loc t ts pn = Ok (SelScalar (cell_at t (i, j))).
Proof.
  intros Hi Hj. rewrite loc_cases.
  rewrite (positions_single _ _ _ Hi), (positions_single _ _ _ Hj). reflexivity.
Qed.

(** The cells of a selection are the cells of the table that carry the two
    labels. *)
Lemma elem_of_values_1d (t : DataFrame) (ps : list (nat * nat)) (c : cell) :
  c ∈ values_1d t ps <-> exists p, p ∈ ps /\ cell_at t p = c.
Proof.
  induction ps as [|q ps IH]; simpl.
  - rewrite elem_of_nil. split; [tauto | intros (p & Hp & _); now apply elem_of_nil in Hp].
  - rewrite elem_of_cons, IH. split.
    + intros [->|(p & Hp & <-)]; [exists q | exists p]; split; auto; [left | now right].
    + intros (p & Hp & <-). apply elem_of_cons in Hp. destruct Hp as [->|Hp]; eauto.
Qed.

Lemma elem_of_values_2d (t : DataFrame) (ii jj : list nat) (c : cell) :
  c ∈ concat (values_2d t (map (fun i => map (pair i) jj) ii))
  <-> exists i j, i ∈ ii /\ j ∈ jj /\ cell_at t (i, j) = c.
Proof.
  induction ii as [|i0 ii IH]; simpl.
  - rewrite elem_of_nil. split; [tauto | intros (i & j & Hi & _); now apply elem_of_nil in Hi].
  - rewrite elem_of_app, IH, elem_of_values_1d. split.
    + intros [(p & Hp & <-)|(i & j & Hi & Hj & <-)].
      * apply elem_of_row_positions in Hp. destruct p as [a b], Hp as [Ha Hb]; simpl in *.
        subst a. exists i0, b. repeat split; [left | assumption].
      * exists i, j. repeat split; [now right | assumption].
    + intros (i & j & Hi & Hj & <-). apply elem_of_cons in Hi. destruct Hi as [->|Hi].
      * left. exists (i0, j). split; [now apply elem_of_row_positions | reflexivity].
      * right. eauto.
Qed.

Lemma loc_cells (t : DataFrame) (ts pn : label) (sel : selection) (c : cell) :
  loc t ts pn = Ok sel ->
  c ∈ cells_of (stored t sel)
  <-> exists i j, index t !! i = Some ts /\ columns t !! j = Some pn /\ cell_at t (i, j) = c.
Proof.
  intros Hloc.
  transitivity (exists i j, i ∈ positions ts (index t) /\ j ∈ positions pn (columns t)
                            /\ cell_at t (i, j) = c).
  2: { split; intros (i & j & Hi & Hj & Hc); exists i, j;
       (split; [|split]); try assumption; now apply elem_of_positions. }
  rewrite loc_cases in Hloc.
  destruct (positions ts (index t)) as [|i0 [|i1 ii]];
    destruct (positions pn (columns t)) as [|j0 [|j1 jj]];
    try discriminate; injection Hloc as <-; unfold stored, cells_of.
  - rewrite list_elem_of_singleton. split.
    + intros ->. exists i0, j0. repeat split; left.
    + intros (i & j & Hi & Hj & <-). apply list_elem_of_singleton in Hi, Hj. now subst.
  - rewrite elem_of_values_1d. split.
    + intros (p & Hp & <-). apply (elem_of_row_positions i0 (j0 :: j1 :: jj)) in Hp.
      destruct p as [a b], Hp as [Ha Hb]; simpl in *. subst a.
      exists i0, b. repeat split; [left | assumption].
    + intros (i & j & Hi & Hj & <-). apply list_elem_of_singleton in Hi. subst i.
      exists (i0, j). split; [|reflexivity].
      now apply (elem_of_row_positions i0 (j0 :: j1 :: jj)).
  - rewrite elem_of_values_1d. split.
    + intros (p & Hp & <-). apply (elem_of_column_positions (i0 :: i1 :: ii) j0) in Hp.
      destruct p as [a b], Hp as [Ha Hb]; simpl in *. subst b.
      exists a, j0. repeat split; [assumption | left].
    + intros (i & j & Hi & Hj & <-). apply list_elem_of_singleton in Hj. subst j.
      exists (i, j0). split; [|reflexivity].
      now apply (elem_of_column_positions (i0 :: i1 :: ii) j0).
  - apply (elem_of_values_2d t (i0 :: i1 :: ii) (j0 :: j1 :: jj)).
Qed.

(** ** The value of a time step *)

(** With both labels present and numbers in the cells they label, the
    result is the scaled copy of the stored cells, and the stored cells
    themselves under the default scale factor. *)
Lemma get_time_step_value_labelled (σ : store) (self : DFData) (t : DataFrame)
    (ts pn : label) :
  σ !! df self = Some t ->
  ts ∈ index t -> pn ∈ columns t ->
  (forall i j, index t !! i = Some ts -> columns t !! j = Some pn ->
               is_num (cell_at t (i, j)) = true) ->
  exists v,
    (forall c, c ∈ cells_of v <->
               exists i j, index t !! i = Some ts /\ columns t !! j = Some pn
                           /\ cell_at t (i, j) = c)
    /\ (forall i j, (forall i', index t !! i' = Some ts <-> i' = i) ->
                    (forall j', columns t !! j' = Some pn <-> j' = j) ->
                    v = Scalar (cell_at t (i, j)))
    /\ (forall s, (get_time_step_value self ts pn s σ).2
                   = Ok (scale_value (float_of s) v))
    /\ (get_time_step_value self ts pn default_scale_factor σ).2 = Ok v.
Proof.
  intros Hσ Hts Hpn Hnum.
  destruct (loc_present t ts pn Hts Hpn) as [sel Hsel]. exists (stored t sel).
  assert (forall s, (get_time_step_value self ts pn s σ).2
                    = Ok (scale_value (float_of s) (stored t sel))) as Hres.
  { intros s. rewrite (get_time_step_value_result _ _ _ _ _ _ Hσ), Hsel.
    pose proof (loc_numeric t ts pn sel s Hsel Hnum) as Hmul.
    destruct sel; simpl; rewrite Hmul; reflexivity. }
  split; [intros c; now apply loc_cells|]. split; [|split; [exact Hres|]].
  - intros i j Hi Hj. rewrite (loc_single t ts pn i j Hi Hj) in Hsel.
    injection Hsel as <-. reflexivity.
  - rewrite Hres. unfold default_scale_factor. simpl. now rewrite scale_value_one.
Qed.

(** C1.  For every table and every time step and profile name that occur
    among its row and column labels, with numbers in the cells they label,
    [get_time_step_value] returns the stored value [v] multiplied by the
    scale factor, a float or an integer, and with the scale factor 1.0 it
    returns [v] exactly.  The stored value consists of the cells that carry
    the two labels; it is the one cell [(i, j)] when the time step labels
    row [i] alone and the profile name labels column [j] alone. *)
Theorem get_time_step_value_scales (σ : store) (self : DFData) (t : DataFrame)
    (ts pn : label) (s : number) :
  σ !! df self = Some t ->
  ts ∈ index t -> pn ∈ columns t ->
  (forall i j, index t !! i = Some ts -> columns t !! j = Some pn ->
               is_num (cell_at t (i, j)) = true) ->
  exists v,
    (forall c, c ∈ cells_of v <->
               exists i j, index t !! i = Some ts /\ columns t !! j = Some pn
                           /\ cell_at t (i, j) = c)
    /\ (forall i j, (forall i', index t !! i' = Some ts <-> i' = i) ->
                    (forall j', columns t !! j' = Some pn <-> j' = j) ->
                    v = Scalar (cell_at t (i, j)))
    /\ (get_time_step_value self ts pn s σ).2 = Ok (scale_value (float_of s) v)
    /\ (get_time_step_value self ts pn (PyFloat 1) σ).2 = Ok v.
Proof.
  intros Hσ Hts Hpn Hnum.
  destruct (get_time_step_value_labelled σ self t ts pn Hσ Hts Hpn Hnum)
    as (v & Hcells & Hone & Hscaled & Hplain).
  exists v. repeat split; try apply Hcells; auto.
Qed.

(** C2.  When the time step is not a row label of the table or the profile
    name is not a column label, [get_time_step_value] raises the [KeyError]
    of the lookup itself: the error names the time step or the profile
    name, whichever the lookup found missing, and it is the very error that
    [df.loc] raised.  Nothing is returned in its place, whatever the scale
    factor, and the store is left as it was. *)
Theorem get_time_step_value_unknown_label (σ : store) (self : DFData) (t : DataFrame)
    (ts pn : label) (s : number) :
  σ !! df self = Some t ->
  ts ∉ index t \/ pn ∉ columns t ->
  exists k,
    ((k = ts /\ ts ∉ index t) \/ (k = pn /\ pn ∉ columns t))
    /\ loc t ts pn = Raise (KeyError k)
    /\ get_time_step_value self ts pn s σ = (σ, Raise (KeyError k)).
Proof.
  intros Hσ Habsent. destruct (loc_absent t ts pn Habsent) as (k & Hk & Hloc).
  exists k. split; [exact Hk|]. split; [exact Hloc|].
  run Hσ. rewrite Hloc. reflexivity.
Qed.

(** The result of [get_time_step_value] is a function of the table that
    the reference denotes when the call is made. *)
Lemma get_time_step_value_reads_table (σ σ' : store) (self : DFData)
    (ts pn : label) (s : number) :
  σ' !! df self = σ !! df self ->
  (get_time_step_value self ts pn s σ').2 = (get_time_step_value self ts pn s σ).2.
Proof.
  intros Heq. destruct (σ !! df self) as [t|] eqn:Hσ.
  - now rewrite !(get_time_step_value_result _ _ t).
  - run Heq. run Hσ. reflexivity.
Qed.

(** C3.  Nothing is cached.  [get_time_steps_len] returns the number of
    rows of the table as it is when the call is made: [len t] before another
    holder replaces the content of the table by [t'], [len t'] after.
    [get_time_step_value] reads the table anew as well: after the change it
    returns what any call on a table with the content [t'] returns, and in
    particular the cell that [t'] keeps under the two labels. *)
Theorem accessors_read_current_table (σ : store) (self : DFData) (t t' : DataFrame)
    (ts pn : label) (s : number) :
  σ !! df self = Some t ->
  get_time_steps_len self σ = (σ, Ok (length (index t)))
  /\ get_time_steps_len self (<[df self := t']> σ)
     = (<[df self := t']> σ, Ok (length (index t')))
  /\ (forall σ', σ' !! df self = Some t' ->
        (get_time_step_value self ts pn s (<[df self := t']> σ)).2
        = (get_time_step_value self ts pn s σ').2)
  /\ (forall i j x,
        (forall i', index t' !! i' = Some ts <-> i' = i) ->
        (forall j', columns t' !! j' = Some pn <-> j' = j) ->
        cell_at t' (i, j) = Num x ->
        (get_time_step_value self ts pn s (<[df self := t']> σ)).2
        = Ok (Scalar (Num (x * float_of s)%float))).
Proof.
  intros Hσ.
  assert ((<[df self := t']> σ) !! df self = Some t') as Hσ' by apply lookup_insert_eq.
  repeat split.
  - run Hσ. reflexivity.
  - run Hσ'. reflexivity.
  - intros σ2 H2. apply get_time_step_value_reads_table. congruence.
  - intros i j x Hi Hj Hx.
    rewrite (get_time_step_value_result _ _ _ _ _ _ Hσ'), (loc_single _ _ _ _ _ Hi Hj), Hx.
    reflexivity.
Qed.

(** ** Construction *)

Lemma ndarray_astype_int_ok (labels : list label) (zs : list Z) :
  Forall2 (fun l z => int_of_label l = Ok z) labels zs ->
  ndarray_astype_int labels = Ok (map LInt zs).
Proof.
  induction 1 as [|l z labels zs Hl _ IH]; simpl; [reflexivity|].
  now rewrite Hl, IH.
Qed.

(** The cast by the dtype of the index; the empty index, of dtype
    [object], casts like an [int64] index. *)
Lemma astype_int_by_dtype (labels : list label) :
  astype_int labels =
    if forallb is_int64_label labels then Ok labels
    else if forallb is_uint64_label labels then Ok (map reinterpret_label labels)
    else match ndarray_astype_int labels with
         | Ok labels' => Ok labels'
         | Raise TypeError | Raise ValueError => Raise TypeError
         | Raise e => Raise e
         end.
Proof.
  unfold astype_int, inferred_dtype. destruct labels as [|l labels]; [reflexivity|].
  destruct (forallb is_int64_label (l :: labels)); [reflexivity|].
  destruct (forallb is_uint64_label (l :: labels)); reflexivity.
Qed.

Lemma int_of_label_in_int64 (l : label) (z : Z) :
  int_of_label l = Ok z -> in_int64 z = true.
Proof.
  unfold int_of_label. destruct l as [y|x].
  - destruct (in_int64 y) eqn:E; [intros [= <-]; exact E | discriminate].
  - destruct (int_of_str x) as [y|]; [|discriminate].
    destruct (in_int64 y) eqn:E; [intros [= <-]; exact E | discriminate].
Qed.

Lemma int_of_label_LInt (z : Z) : in_int64 z = true -> int_of_label (LInt z) = Ok z.
Proof. intros H. unfold int_of_label. now rewrite H. Qed.

Lemma int_of_label_LInt_inv (y z : Z) :
  int_of_label (LInt y) = Ok z -> y = z /\ in_int64 y = true.
Proof.
  unfold int_of_label. destruct (in_int64 y); [intros [= <-]; auto | discriminate].
Qed.

(** Labels that convert one by one make no [uint64] index, and those of an
    [int64] index convert to themselves. *)
Lemma converting_labels_int64 (labels : list label) (zs : list Z) :
  Forall2 (fun l z => int_of_label l = Ok z) labels zs ->
  forallb is_uint64_label labels = true -> forallb is_int64_label labels = true.
Proof.
  induction 1 as [|l z labels zs Hl _ IH]; simpl; [reflexivity|].
  intros H. apply andb_prop in H. destruct H as [Hl' H].
  destruct l as [y|x]; [|discriminate].
  destruct (int_of_label_LInt_inv _ _ Hl) as [_ Hy]. simpl. rewrite Hy. now apply IH.
Qed.

Lemma int64_labels_convert (labels : list label) (zs : list Z) :
  Forall2 (fun l z => int_of_label l = Ok z) labels zs ->
  forallb is_int64_label labels = true -> labels = map LInt zs.
Proof.
  induction 1 as [|l z labels zs Hl _ IH]; simpl; [reflexivity|].
  intros H. apply andb_prop in H. destruct H as [Hl' H].
  destruct l as [y|x]; [|discriminate].
  destruct (int_of_label_LInt_inv _ _ Hl) as [-> _]. f_equal. now apply IH.
Qed.

Lemma astype_int_ok (labels : list label) (zs : list Z) :
  Forall2 (fun l z => int_of_label l = Ok z) labels zs ->
  astype_int labels = Ok (map LInt zs).
Proof.
  intros H. rewrite astype_int_by_dtype.
  destruct (forallb is_int64_label labels) eqn:E1.
  - f_equal. now apply int64_labels_convert.
  - destruct (forallb is_uint64_label labels) eqn:E2.
    + rewrite (converting_labels_int64 _ _ H E2) in E1. discriminate.
    + now rewrite (ndarray_astype_int_ok _ _ H).
Qed.

(** Labels that are the decimal strings of 64-bit integers convert. *)
Lemma decimal_labels_convert (zs : list Z) :
  Forall (fun z => in_int64 z = true) zs ->
  Forall2 (fun l z => int_of_label l = Ok z) (map (fun z => LStr (str_of_int z)) zs) zs.
Proof.
  induction 1 as [|z zs Hz _ IH]; simpl; constructor;
    [now apply int_of_label_str_of_int | assumption].
Qed.

(** C4.  Constructing with [multi] on a table whose row and column labels
    are plain and all convert to integers, as integer-valued strings do,
    replaces, in the table that the caller handed over, every row label and
    every column label by the integer it denotes; the new labels compare
    equal to these integers.  The instance refers to that same table, and
    no other table of the store changes. *)
Theorem init_multi_casts_labels_in_place (σ : store) (r : ref) (t : DataFrame)
    (rows cols : list Z) :
  σ !! r = Some t ->
  plain_labels t = true ->
  Forall2 (fun l z => int_of_label l = Ok z) (index t) rows ->
  Forall2 (fun l z => int_of_label l = Ok z) (columns t) cols ->
  let t' := {| index := map LInt rows; columns := map LInt cols; data := data t |} in
  __init__ r true σ = (<[r := t']> σ, Ok {| df := r |})
  /\ Forall2 (fun l z => label_eqb l (LInt z) = true) (index t') rows
  /\ Forall2 (fun l z => label_eqb l (LInt z) = true) (columns t') cols.
Proof.
  intros Hσ _ Hrows Hcols t'. repeat split.
  - run Hσ. rewrite (astype_int_ok _ _ Hrows). simpl.
    rewrite lookup_insert_eq. simpl.
    rewrite (astype_int_ok _ _ Hcols). simpl.
    now rewrite insert_insert_eq.
  - simpl. clear. induction rows; simpl; constructor; [apply Z.eqb_refl | assumption].
  - simpl. clear. induction cols; simpl; constructor; [apply Z.eqb_refl | assumption].
Qed.

Lemma int_of_label_failure (l : label) (e : exn) :
  int_of_label l = Raise e -> e = ValueError \/ e = OverflowError.
Proof.
  unfold int_of_label. destruct l as [z|x].
  - destruct (in_int64 z); [discriminate | intros [= <-]; now right].
  - destruct (int_of_str x) as [z|].
    + destruct (in_int64 z); [discriminate | intros [= <-]; now right].
    + intros [= <-]. now left.
Qed.

Lemma ndarray_astype_int_failure (labels : list label) (l : label) :
  l ∈ labels -> (forall z, int_of_label l <> Ok z) ->
  exists e, ndarray_astype_int labels = Raise e /\ (e = ValueError \/ e = OverflowError).
Proof.
  induction labels as [|l' labels IH]; intros Hin Hfail.
  - now apply elem_of_nil in Hin.
  - simpl. destruct (int_of_label l') as [z|e] eqn:E.
    + apply elem_of_cons in Hin. destruct Hin as [->|Hin]; [now destruct (Hfail z)|].
      destruct (IH Hin Hfail) as (e & -> & He). eauto.
    + exists e. split; [reflexivity|]. now apply (int_of_label_failure l').
Qed.

Lemma ndarray_astype_int_inv (labels labels' : list label) :
  ndarray_astype_int labels = Ok labels' ->
  exists zs, labels' = map LInt zs
             /\ Forall2 (fun l z => int_of_label l = Ok z) labels zs.
Proof.
  revert labels'. induction labels as [|l labels IH]; simpl; intros labels' H.
  - injection H as <-. exists []. split; [reflexivity | constructor].
  - destruct (int_of_label l) as [z|e] eqn:El; [|discriminate].
    destruct (ndarray_astype_int labels) as [rest|e]; [|discriminate].
    injection H as <-. destruct (IH rest eq_refl) as (zs & -> & Hzs).
    exists (z :: zs). split; [reflexivity | now constructor].
Qed.

Lemma forallb_elem_of {A : Type} (f : A -> bool) (l : list A) (x : A) :
  forallb f l = true -> x ∈ l -> f x = true.
Proof.
  induction l as [|y l IH]; simpl; intros H Hin.
  - now apply elem_of_nil in Hin.
  - apply andb_prop in H. destruct H as [Hy H].
    apply elem_of_cons in Hin. destruct Hin as [->|Hin]; auto.
Qed.

(** A [str] that [int] rejects makes the cast fail. *)
Lemma astype_int_rejected (labels : list label) (k : string) :
  LStr k ∈ labels -> int_of_str k = None ->
  exists e, astype_int labels = Raise e /\ (e = TypeError \/ e = OverflowError).
Proof.
  intros Hin Hk. rewrite astype_int_by_dtype.
  destruct (forallb is_int64_label labels) eqn:E1.
  { pose proof (forallb_elem_of _ _ _ E1 Hin) as H. discriminate H. }
  destruct (forallb is_uint64_label labels) eqn:E2.
  { pose proof (forallb_elem_of _ _ _ E2 Hin) as H. discriminate H. }
  destruct (ndarray_astype_int_failure labels (LStr k) Hin) as (e & -> & [->| ->]); eauto.
  intros z. unfold int_of_label. rewrite Hk. discriminate.
Qed.

Lemma wrap_int64_range (z : Z) : in_int64 (wrap_int64 z) = true.
Proof.
  unfold in_int64, wrap_int64, int64_min, int64_max.
  pose proof (Z.mod_pos_bound (z + 2 ^ 63) (2 ^ 64) eq_refl) as H.
  apply andb_true_intro. split; apply Z.leb_le; lia.
Qed.

Lemma int64_labels_inv (labels : list label) :
  forallb is_int64_label labels = true ->
  exists zs, labels = map LInt zs /\ Forall (fun z => in_int64 z = true) zs.
Proof.
  induction labels as [|l labels IH]; simpl; intros H.
  - exists []. split; [reflexivity | constructor].
  - apply andb_prop in H. destruct H as [Hl H]. destruct l as [y|x]; [|discriminate].
    destruct (IH H) as (zs & -> & Hzs). exists (y :: zs). split; [reflexivity|].
    now constructor.
Qed.

Lemma uint64_labels_inv (labels : list label) :
  forallb is_uint64_label labels = true ->
  exists zs, map reinterpret_label labels = map LInt zs
             /\ Forall (fun z => in_int64 z = true) zs.
Proof.
  induction labels as [|l labels IH]; simpl; intros H.
  - exists []. split; [reflexivity | constructor].
  - apply andb_prop in H. destruct H as [Hl H]. destruct l as [y|x]; [|discriminate].
    destruct (IH H) as (zs & -> & Hzs). exists (wrap_int64 y :: zs).
    split; [reflexivity|]. constructor; [apply wrap_int64_range | assumption].
Qed.

(** What a cast returns are integers of 64 bits, one for each label. *)
Lemma astype_int_inv (labels labels' : list label) :
  astype_int labels = Ok labels' ->
  exists zs, labels' = map LInt zs
             /\ Forall (fun z => in_int64 z = true) zs
             /\ length labels' = length labels.
Proof.
  rewrite astype_int_by_dtype.
  destruct (forallb is_int64_label labels) eqn:E1.
  { intros [= <-]. destruct (int64_labels_inv _ E1) as (zs & Hzs & Hrange). eauto. }
  destruct (forallb is_uint64_label labels) eqn:E2.
  { intros [= <-]. destruct (uint64_labels_inv _ E2) as (zs & Hzs & Hrange).
    exists zs. rewrite length_map. auto. }
  destruct (ndarray_astype_int labels) as [rest|e] eqn:E; [|destruct e; discriminate].
  intros [= <-]. destruct (ndarray_astype_int_inv _ _ E) as (zs & -> & Hzs).
  exists zs. split; [reflexivity|]. split.
  - clear -Hzs. induction Hzs as [|l z labels zs Hl _ IH]; constructor; [|assumption].
    now apply (int_of_label_in_int64 l).
  - rewrite length_map. symmetry. now apply (Forall2_length _ _ _ Hzs).
Qed.

(** Integers of 64 bits are cast to themselves. *)
Lemma astype_int_cast (zs : list Z) :
  Forall (fun z => in_int64 z = true) zs -> astype_int (map LInt zs) = Ok (map LInt zs).
Proof.
  intros H. rewrite astype_int_by_dtype.
  replace (forallb is_int64_label (map LInt zs)) with true; [reflexivity|].
  induction H as [|z zs Hz _ IH]; simpl; [reflexivity|]. now rewrite Hz.
Qed.

(** The three ways a construction with [multi] can end on a table [t]: on
    the row labels, on the column labels with the row labels cast, or with
    an instance. *)
Lemma init_multi_outcome (σ : store) (r : ref) (t : DataFrame) :
  σ !! r = Some t ->
  __init__ r true σ =
    match astype_int (index t) with
    | Raise e => (σ, Raise e)
    | Ok rows =>
        match astype_int (columns t) with
        | Raise e => (<[r := set_index t rows]> σ, Raise e)
        | Ok cols =>
            (<[r := {| index := rows; columns := cols; data := data t |}]> σ,
             Ok {| df := r |})
        end
    end.
Proof.
  intros Hσ. run Hσ. destruct (astype_int (index t)) as [rows|e]; simpl; [|reflexivity].
  rewrite lookup_insert_eq. simpl.
  destruct (astype_int (columns t)) as [cols|e]; simpl; [|reflexivity].
  now rewrite insert_insert_eq.
Qed.

Lemma values_1d_str (t : DataFrame) (ps : list (nat * nat)) (p : nat * nat) :
  p ∈ ps -> is_num (cell_at t p) = false ->
  Exists (fun c => is_num c = false) (values_1d t ps).
Proof.
  induction ps as [|q ps IH]; intros Hin Hp; simpl.
  - now apply elem_of_nil in Hin.
  - apply elem_of_cons in Hin. destruct Hin as [<-|Hin]; [now left | right; auto].
Qed.

Lemma values_2d_str (t : DataFrame) (pss : list (list (nat * nat)))
    (ps : list (nat * nat)) (p : nat * nat) :
  ps ∈ pss -> p ∈ ps -> is_num (cell_at t p) = false ->
  Exists (Exists (fun c => is_num c = false)) (values_2d t pss).
Proof.
  induction pss as [|qs pss IH]; intros Hps Hin Hp; simpl.
  - now apply elem_of_nil in Hps.
  - apply elem_of_cons in Hps. destruct Hps as [<-|Hps].
    + left. now apply (values_1d_str t ps p).
    + right. auto.
Qed.

Lemma frame_positions_elem_of (ii jj : list nat) (i j : nat) :
  i ∈ ii -> j ∈ jj ->
  exists ps, ps ∈ map (fun i => map (pair i) jj) ii /\ (i, j) ∈ ps.
Proof.
  intros Hi Hj. exists (map (pair i) jj). split.
  - induction ii as [|i' ii IH]; [now apply elem_of_nil in Hi|].
    simpl. apply elem_of_cons in Hi. destruct Hi as [->|Hi]; [left | right; auto].
  - now apply elem_of_row_positions.
Qed.

(** A [str] among the selected cells makes the product with a float fail. *)
Lemma get_time_step_value_str (σ : store) (self : DFData) (t : DataFrame)
    (ts pn : label) (s : float) (i j : nat) (x : string) :
  σ !! df self = Some t ->
  index t !! i = Some ts -> columns t !! j = Some pn ->
  cell_at t (i, j) = Str x ->
  (get_time_step_value self ts pn (PyFloat s) σ).2 = Raise TypeError.
Proof.
  intros Hσ Hi Hj Hx. rewrite (get_time_step_value_result _ _ _ _ _ _ Hσ).
  apply elem_of_positions in Hi, Hj.
  assert (is_num (cell_at t (i, j)) = false) as Hstr by now rewrite Hx.
  rewrite loc_cases.
  destruct (positions ts (index t)) as [|i0 [|i1 ii]] eqn:Ei;
    [now apply elem_of_nil in Hi | |];
    (destruct (positions pn (columns t)) as [|j0 [|j1 jj]] eqn:Ej;
     [now apply elem_of_nil in Hj | |]).
  - apply list_elem_of_singleton in Hi, Hj. subst i0 j0.
    now rewrite (mul_cell_str _ _ Hstr).
  - apply list_elem_of_singleton in Hi. subst i0.
    assert (Exists (fun c => is_num c = false)
              (values_1d t (map (pair i) (j0 :: j1 :: jj)))) as Hex.
    { apply (values_1d_str t _ (i, j)); [|assumption].
      now apply elem_of_row_positions. }
    pose proof (imul_1d_str _ s Hex) as H.
    destruct (imul_1d _ (PyFloat s)) as [res [e|]]; simpl in H; congruence.
  - apply list_elem_of_singleton in Hj. subst j0.
    assert (Exists (fun c => is_num c = false)
              (values_1d t (map (fun i => (i, j)) (i0 :: i1 :: ii)))) as Hex.
    { apply (values_1d_str t _ (i, j)); [|assumption].
      now apply elem_of_column_positions. }
    pose proof (imul_1d_str _ s Hex) as H.
    destruct (imul_1d _ (PyFloat s)) as [res [e|]]; simpl in H; congruence.
  - assert (Exists (Exists (fun c => is_num c = false))
              (values_2d t (map (fun i => map (pair i) (j0 :: j1 :: jj)) (i0 :: i1 :: ii))))
      as Hex.
    { destruct (frame_positions_elem_of _ _ i j Hi Hj) as (ps & Hps & Hp).
      now apply (values_2d_str t _ ps (i, j)). }
    pose proof (imul_2d_str _ s Hex) as H.
    destruct (imul_2d _ (PyFloat s)) as [res [e|]]; simpl in H; congruence.
Qed.

(** C10.  Rows and columns are addressed by label, never by position, and
    nothing checks that the row labels count up from 0.  Whatever the row
    labels of the table are, the constructor without [multi] accepts the
    table and leaves it as it is, and [get_time_step_value] with the default
    scale factor returns the cells whose row carries the time step and whose
    column carries the profile name: the cell [(i, j)] when these are row
    [i] and column [j] alone. *)
Theorem addressing_is_by_label (σ : store) (r : ref) (t : DataFrame) (ts pn : label) :
  σ !! r = Some t ->
  ts ∈ index t -> pn ∈ columns t ->
  (forall i j, index t !! i = Some ts -> columns t !! j = Some pn ->
               is_num (cell_at t (i, j)) = true) ->
  __init__ r false σ = (σ, Ok {| df := r |})
  /\ exists v,
      (get_time_step_value {| df := r |} ts pn default_scale_factor σ).2 = Ok v
      /\ (forall c, c ∈ cells_of v <->
                    exists i j, index t !! i = Some ts /\ columns t !! j = Some pn
                                /\ cell_at t (i, j) = c)
      /\ (forall i j, (forall i', index t !! i' = Some ts <-> i' = i) ->
                      (forall j', columns t !! j' = Some pn <-> j' = j) ->
                      v = Scalar (cell_at t (i, j))).
Proof.
  intros Hσ Hts Hpn Hnum. split; [reflexivity|].
  destruct (get_time_step_value_labelled σ {| df := r |} t ts pn Hσ Hts Hpn Hnum)
    as (v & Hcells & Hone & _ & Hplain).
  exists v. auto.
Qed.

(** ** The shape of the result *)

(** C6, for a time step that labels one row.  When the profile name labels
    one column the result is a scalar; when it labels several, the result is
    the sequence of their cells in column order; either way every number is
    multiplied by the scale factor.  [jj] lists the columns that carry the
    profile name, in increasing order. *)
Theorem get_time_step_value_shape (σ : store) (self : DFData) (t : DataFrame)
    (ts pn : label) (s : number) (i : nat) (jj : list nat) :
  σ !! df self = Some t ->
  (forall i', index t !! i' = Some ts <-> i' = i) ->
  StronglySorted lt jj ->
  (forall j, j ∈ jj <-> columns t !! j = Some pn) ->
  jj <> [] ->
  (forall j, j ∈ jj -> is_num (cell_at t (i, j)) = true) ->
  (get_time_step_value self ts pn s σ).2 =
    Ok (match jj with
        | [j] => Scalar (scale_cell (float_of s) (cell_at t (i, j)))
        | _ => Array1 (map (fun j => scale_cell (float_of s) (cell_at t (i, j))) jj)
        end).
Proof.
  intros Hσ Hi Hsorted Hjj Hne Hnum.
  rewrite (get_time_step_value_result _ _ t) by exact Hσ.
  rewrite loc_cases. rewrite (positions_single _ _ _ Hi), (positions_unique _ _ _ Hsorted Hjj).
  destruct jj as [|j [|j' jj]]; [congruence | |].
  - rewrite mul_cell_num; [reflexivity | apply Hnum; left].
  - rewrite imul_1d_numeric.
    + unfold values_1d. now rewrite !map_map.
    + apply values_1d_numeric. intros p Hp.
      apply (elem_of_row_positions i (j :: j' :: jj)) in Hp.
      destruct p as [a b], Hp as [Ha Hb]; simpl in *. subst a. now apply Hnum.
Qed.

(** ** The string representation *)

Lemma append_assoc (a b c : string) : (a ++ b) ++ c = a ++ b ++ c.
Proof.
  induction a as [|ch a IH]; [reflexivity|].
  change (String ch ((a ++ b) ++ c) = String ch (a ++ b ++ c)). now rewrite IH.
Qed.

Lemma append_empty_r (a : string) : a ++ "" = a.
Proof.
  induction a as [|ch a IH]; [reflexivity|].
  change (String ch (a ++ "") = String ch a). now rewrite IH.
Qed.

(** C7.  [__repr__] returns a string that contains the class name, the
    number of rows and the number of columns.  The column labels, as numpy
    prints them, are appended after a colon when there are at most 10
    columns, and nothing is appended when there are more.  The string is a
    function of the table: any call that finds the same table returns it. *)
Theorem repr_describes_table (σ : store) (self : DFData) (t : DataFrame) :
  σ !! df self = Some t ->
  let nrows := fmt_d (length (index t)) in
  let ncols := fmt_d (length (columns t)) in
  let summary := class_name ++ " with " ++ nrows ++ " rows and " ++ ncols ++ " columns" in
  exists s,
    __repr__ self σ = (σ, Ok s)
    /\ contains class_name s /\ contains nrows s /\ contains ncols s
    /\ (length (columns t) <= 10 -> s = summary ++ ": " ++ ndarray_str (columns t))
    /\ (10 < length (columns t) -> s = summary)
    /\ (forall σ', σ' !! df self = Some t -> (__repr__ self σ').2 = Ok s).
Proof.
  intros Hσ nrows ncols summary.
  set (suffix := if Nat.leb (length (columns t)) 10
                 then ": " ++ ndarray_str (columns t) else "").
  assert (forall σ', σ' !! df self = Some t ->
                     __repr__ self σ' = (σ', Ok (summary ++ suffix))) as Hrun.
  { intros σ' Hσ'. run Hσ'. subst suffix.
    destruct (Nat.leb (length (columns t)) 10); [reflexivity | now rewrite append_empty_r]. }
  exists (summary ++ suffix). split; [now apply Hrun|].
  split; [|split; [|split; [|split; [|split]]]].
  - exists "", (" with " ++ nrows ++ " rows and " ++ ncols ++ " columns" ++ suffix).
    subst summary. now rewrite !append_assoc.
  - exists (class_name ++ " with "), (" rows and " ++ ncols ++ " columns" ++ suffix).
    subst summary. now rewrite !append_assoc.
  - exists (class_name ++ " with " ++ nrows ++ " rows and "), (" columns" ++ suffix).
    subst summary. now rewrite !append_assoc.
  - intros Hle. subst suffix. apply Nat.leb_le in Hle. now rewrite Hle.
  - intros Hgt. subst suffix. apply Nat.leb_gt in Hgt. now rewrite Hgt, append_empty_r.
  - intros σ' Hσ'. now rewrite (Hrun σ' Hσ').
Qed.

(** ** What the reading methods leave untouched *)

Lemma get_time_steps_len_frame (σ : store) (self : DFData) :
  (get_time_steps_len self σ).1 = σ.
Proof. run I. destruct (σ !! df self); reflexivity. Qed.

Lemma repr_frame (σ : store) (self : DFData) : (__repr__ self σ).1 = σ.
Proof.
  run I. destruct (σ !! df self) as [t|]; [|reflexivity]. simpl.
  destruct (Nat.leb (length (columns t)) 10); reflexivity.
Qed.

Lemma put_1d_labels (t : DataFrame) (ps : list (nat * nat)) (buf : list cell) :
  index (put_1d t ps buf) = index t /\ columns (put_1d t ps buf) = columns t.
Proof.
  revert t buf. induction ps as [|p ps IH]; intros t [|c buf]; simpl; auto.
  destruct (IH (set_cell t p c) buf) as [-> ->]. auto.
Qed.

Lemma put_2d_labels (t : DataFrame) (pss : list (list (nat * nat)))
    (buf : list (list cell)) :
  index (put_2d t pss buf) = index t /\ columns (put_2d t pss buf) = columns t.
Proof.
  revert t buf. induction pss as [|ps pss IH]; intros t [|row buf]; simpl; auto.
  destruct (IH (put_1d t ps row) buf) as [-> ->]. apply put_1d_labels.
Qed.

(** [get_time_step_value] touches no other table and never changes the row
    or column labels of its own; it leaves the cells alone as well when the
    lookup gives a scalar, and when the array it multiplies is a copy. *)
Lemma get_time_step_value_frame (σ : store) (self : DFData) (t : DataFrame)
    (ts pn : label) (s : number) :
  σ !! df self = Some t ->
  (forall r, r <> df self -> (get_time_step_value self ts pn s σ).1 !! r = σ !! r)
  /\ (exists t', (get_time_step_value self ts pn s σ).1 !! df self = Some t'
                 /\ index t' = index t /\ columns t' = columns t)
  /\ (shares_memory t ts pn = false -> (get_time_step_value self ts pn s σ).1 = σ)
  /\ (forall c, loc t ts pn = Ok (SelScalar c) ->
                (get_time_step_value self ts pn s σ).1 = σ).
Proof.
  intros Hσ. run Hσ.
  destruct (loc t ts pn) as [[c|ps|pss]|e]; simpl.
  - destruct (mul_cell c s); simpl; repeat split; eauto.
  - destruct (imul_1d (values_1d t ps) s) as [res failure].
    destruct (shares_memory t ts pn); simpl.
    + destruct (put_1d_labels t ps res) as [Hi Hc].
      destruct failure; simpl; (repeat split;
        [ intros r Hr; now rewrite lookup_insert_ne
        | eexists; rewrite lookup_insert_eq; eauto
        | discriminate | discriminate ]).
    + destruct failure; simpl; repeat split; eauto.
  - destruct (imul_2d (values_2d t pss) s) as [res failure].
    destruct (shares_memory t ts pn); simpl.
    + destruct (put_2d_labels t pss res) as [Hi Hc].
      destruct failure; simpl; (repeat split;
        [ intros r Hr; now rewrite lookup_insert_ne
        | eexists; rewrite lookup_insert_eq; eauto
        | discriminate | discriminate ]).
    + destruct failure; simpl; repeat split; eauto.
  - repeat split; eauto.
Qed.

Lemma cell_at_set_cell_ne (t : DataFrame) (p q : nat * nat) (c : cell) :
  p <> q -> cell_at (set_cell t p c) q = cell_at t q.
Proof.
  intros Hne. unfold cell_at, set_cell. simpl.
  destruct (decide (p.1 = q.1)) as [E|E].
  - rewrite <- E, list_lookup_alter_eq.
    destruct (data t !! p.1) as [row|]; simpl; [|reflexivity].
    rewrite list_lookup_insert_ne; [reflexivity|].
    intros E2. apply Hne. destruct p, q; simpl in *; congruence.
  - now rewrite list_lookup_alter_ne.
Qed.

Lemma cell_at_put_1d_other (t : DataFrame) (ps : list (nat * nat)) (buf : list cell)
    (q : nat * nat) :
  q ∉ ps -> cell_at (put_1d t ps buf) q = cell_at t q.
Proof.
  revert t buf. induction ps as [|p ps IH]; intros t [|c buf] Hq; simpl; try reflexivity.
  rewrite IH by (intros H; apply Hq; now right).
  apply cell_at_set_cell_ne. intros ->. apply Hq. left.
Qed.

Lemma cell_at_put_2d_other (t : DataFrame) (pss : list (list (nat * nat)))
    (buf : list (list cell)) (q : nat * nat) :
  (forall ps, ps ∈ pss -> q ∉ ps) -> cell_at (put_2d t pss buf) q = cell_at t q.
Proof.
  revert t buf. induction pss as [|ps pss IH]; intros t [|row buf] Hq; simpl;
    try reflexivity.
  rewrite IH by (intros ps' H; apply Hq; now right).
  apply cell_at_put_1d_other, Hq. left.
Qed.

(** The positions of a selection carry the two labels. *)
Lemma loc_series_labelled (t : DataFrame) (ts pn : label) (ps : list (nat * nat))
    (p : nat * nat) :
  loc t ts pn = Ok (SelSeries ps) -> p ∈ ps ->
  index t !! p.1 = Some ts /\ columns t !! p.2 = Some pn.
Proof.
  rewrite loc_cases. intros Hloc Hp.
  destruct (positions ts (index t)) as [|i0 [|i1 ii]] eqn:Ei;
    destruct (positions pn (columns t)) as [|j0 [|j1 jj]] eqn:Ej;
    try discriminate; injection Hloc as <-.
  - apply (elem_of_row_positions i0 (j0 :: j1 :: jj)) in Hp. destruct Hp as [-> Hp].
    split; apply elem_of_positions; [rewrite Ei; left | now rewrite Ej].
  - apply (elem_of_column_positions (i0 :: i1 :: ii) j0) in Hp. destruct Hp as [Hp ->].
    split; apply elem_of_positions; [now rewrite Ei | rewrite Ej; left].
Qed.

Lemma loc_frame_labelled (t : DataFrame) (ts pn : label)
    (pss : list (list (nat * nat))) (ps : list (nat * nat)) (p : nat * nat) :
  loc t ts pn = Ok (SelFrame pss) -> ps ∈ pss -> p ∈ ps ->
  index t !! p.1 = Some ts /\ columns t !! p.2 = Some pn.
Proof.
  rewrite loc_cases. intros Hloc Hps Hp.
  destruct (positions ts (index t)) as [|i0 [|i1 ii]] eqn:Ei;
    destruct (positions pn (columns t)) as [|j0 [|j1 jj]] eqn:Ej;
    try discriminate; injection Hloc as <-.
  destruct (elem_of_frame_positions (i0 :: i1 :: ii) (j0 :: j1 :: jj) _ _ Hps Hp)
    as [Hi Hj].
  split; apply elem_of_positions; [now rewrite Ei | now rewrite Ej].
Qed.

(** Whatever a call writes, it writes into cells that carry both labels. *)
Lemma get_time_step_value_touches (σ : store) (self : DFData) (t : DataFrame)
    (ts pn : label) (s : number) :
  σ !! df self = Some t ->
  exists t',
    (get_time_step_value self ts pn s σ).1 !! df self = Some t'
    /\ index t' = index t /\ columns t' = columns t
    /\ (forall p, ~ (index t !! p.1 = Some ts /\ columns t !! p.2 = Some pn) ->
                  cell_at t' p = cell_at t p).
Proof.
  intros Hσ. run Hσ.
  destruct (loc t ts pn) as [[c|ps|pss]|e] eqn:Hloc; simpl.
  - exists t. destruct (mul_cell c s); simpl; auto.
  - destruct (imul_1d (values_1d t ps) s) as [res failure].
    destruct (shares_memory t ts pn); simpl.
    + exists (put_1d t ps res). destruct (put_1d_labels t ps res) as [Hi Hc].
      assert (forall p, ~ (index t !! p.1 = Some ts /\ columns t !! p.2 = Some pn) ->
                        cell_at (put_1d t ps res) p = cell_at t p) as Hcells.
      { intros p Hp. apply cell_at_put_1d_other. intros Hin. apply Hp.
        now apply (loc_series_labelled t ts pn ps). }
      destruct failure; simpl; rewrite lookup_insert_eq; auto.
    + exists t. destruct failure; simpl; auto.
  - destruct (imul_2d (values_2d t pss) s) as [res failure].
    destruct (shares_memory t ts pn); simpl.
    + exists (put_2d t pss res). destruct (put_2d_labels t pss res) as [Hi Hc].
      assert (forall p, ~ (index t !! p.1 = Some ts /\ columns t !! p.2 = Some pn) ->
                        cell_at (put_2d t pss res) p = cell_at t p) as Hcells.
      { intros p Hp. apply cell_at_put_2d_other. intros ps Hps Hin. apply Hp.
        now apply (loc_frame_labelled t ts pn pss ps). }
      destruct failure; simpl; rewrite lookup_insert_eq; auto.
    + exists t. destruct failure; simpl; auto.
  - exists t. auto.
Qed.

(** C9.  A failure surfaces where it occurs, and what was done before it
    stays done.

    Construction: when a row or column label of a table with plain labels
    is a string that [int] rejects, constructing with [multi] raises a
    conversion error from the constructor ([TypeError], or the
    [OverflowError] of a label before it that does not fit 64 bits), and no
    instance is returned.  The store is left as it was when the cast of the
    row labels failed, which it does when the string is a row label;
    otherwise the row labels were cast and assigned before the column labels
    failed, and the table keeps them.

    Reading: with a float as scale factor, [get_time_step_value] on a time
    step and profile name that label a [str] cell raises the [TypeError] of
    the product from the call, and no value is returned.  The call changes
    no other table, no label, and no cell but those under the two labels;
    it changes nothing when the array it multiplies is a copy. *)
Theorem failures_surface_where_they_occur (σ : store) (t : DataFrame) :
  (forall (r : ref) (k : string),
      σ !! r = Some t ->
      plain_labels t = true -> int_of_str k = None ->
      LStr k ∈ index t \/ LStr k ∈ columns t ->
      exists σ' e,
        __init__ r true σ = (σ', Raise e)
        /\ (e = TypeError \/ e = OverflowError)
        /\ (LStr k ∈ index t -> σ' = σ)
        /\ (forall e', astype_int (index t) = Raise e' -> σ' = σ)
        /\ (forall rows, astype_int (index t) = Ok rows ->
                         σ' = <[r := set_index t rows]> σ))
  /\ (forall (self : DFData) (ts pn : label) (s : float) (i j : nat) (x : string),
      σ !! df self = Some t ->
      index t !! i = Some ts -> columns t !! j = Some pn ->
      cell_at t (i, j) = Str x ->
      exists σ',
        get_time_step_value self ts pn (PyFloat s) σ = (σ', Raise TypeError)
        /\ (forall r, r <> df self -> σ' !! r = σ !! r)
        /\ (exists t',
              σ' !! df self = Some t'
              /\ index t' = index t /\ columns t' = columns t
              /\ forall i' j', ~ (index t !! i' = Some ts /\ columns t !! j' = Some pn) ->
                               cell_at t' (i', j') = cell_at t (i', j'))
        /\ (shares_memory t ts pn = false -> σ' = σ)).
Proof.
  split.
  - intros r k Hσ _ Hk Hin. rewrite (init_multi_outcome _ _ _ Hσ).
    destruct (astype_int (index t)) as [rows|e] eqn:Hrows.
    + destruct Hin as [Hin|Hin].
      { destruct (astype_int_rejected _ _ Hin Hk) as (e & He & _). congruence. }
      destruct (astype_int_rejected _ _ Hin Hk) as (e & -> & He).
      exists (<[r := set_index t rows]> σ), e.
      split; [reflexivity|]. split; [exact He|]. split; [|split].
      * intros Hin'. destruct (astype_int_rejected _ _ Hin' Hk) as (e' & He' & _).
        congruence.
      * discriminate.
      * now intros rows' [= <-].
    + exists σ, e. split; [reflexivity|]. split; [|split; [auto | split; [auto | discriminate]]].
      destruct Hin as [Hin|Hin].
      * destruct (astype_int_rejected _ _ Hin Hk) as (e' & He' & Hkind). congruence.
      * clear -Hrows. revert Hrows. rewrite astype_int_by_dtype.
        destruct (forallb is_int64_label (index t)); [discriminate|].
        destruct (forallb is_uint64_label (index t)); [discriminate|].
        destruct (ndarray_astype_int (index t)) as [rest|e'] eqn:E; [discriminate|].
        assert (e' = ValueError \/ e' = OverflowError) as [->| ->].
        { clear -E. revert E. induction (index t) as [|l labels IH]; simpl; [discriminate|].
          destruct (int_of_label l) as [z|e0] eqn:El.
          - destruct (ndarray_astype_int labels); [discriminate|].
            intros [= <-]. now apply IH.
          - intros [= <-]. now apply (int_of_label_failure l). }
        all: intros [= <-]; auto.
  - intros self ts pn s i j x Hσ Hi Hj Hx.
    pose proof (get_time_step_value_str σ self t ts pn s i j x Hσ Hi Hj Hx) as Hres.
    destruct (get_time_step_value_touches σ self t ts pn (PyFloat s) Hσ)
      as (t' & Ht' & Hindex & Hcolumns & Hcells).
    destruct (get_time_step_value_frame σ self t ts pn (PyFloat s) Hσ)
      as (Hother & _ & Hcopy & _).
    destruct (get_time_step_value self ts pn (PyFloat s) σ) as [σ' res].
    simpl in *. subst res. exists σ'. split; [reflexivity|]. split; [exact Hother|].
    split; [|exact Hcopy].
    exists t'. split; [exact Ht'|]. split; [exact Hindex|]. split; [exact Hcolumns|].
    intros i' j' H. now apply (Hcells (i', j')).
Qed.

(** * Further properties of the methods *)

(** ** Construction with [multi] *)

Lemma init_multi_ok (σ : store) (r : ref) (t : DataFrame) (rows cols : list Z) :
  σ !! r = Some t ->
  Forall2 (fun l z => int_of_label l = Ok z) (index t) rows ->
  Forall2 (fun l z => int_of_label l = Ok z) (columns t) cols ->
  __init__ r true σ
  = (<[r := {| index := map LInt rows; columns := map LInt cols; data := data t |}]> σ,
     Ok {| df := r |}).
Proof.
  intros Hσ Hrows Hcols. rewrite (init_multi_outcome _ _ _ Hσ).
  now rewrite (astype_int_ok _ _ Hrows), (astype_int_ok _ _ Hcols).
Qed.

(** X1.  Construction with [multi] never changes the cells of the table or
    the number of its row and column labels, whether it succeeds or raises,
    and it touches no other table.  The number of time steps reported after
    the construction is the number of rows the table had before. *)
Theorem init_multi_keeps_cells_and_shape (σ : store) (r : ref) (t : DataFrame) :
  σ !! r = Some t ->
  exists t',
    (__init__ r true σ).1 !! r = Some t'
    /\ data t' = data t
    /\ length (index t') = length (index t)
    /\ length (columns t') = length (columns t)
    /\ (forall r', r' <> r -> (__init__ r true σ).1 !! r' = σ !! r')
    /\ get_time_steps_len {| df := r |} (__init__ r true σ).1
       = ((__init__ r true σ).1, Ok (length (index t))).
Proof.
  intros Hσ. rewrite (init_multi_outcome _ _ _ Hσ).
  destruct (astype_int (index t)) as [rows|e] eqn:Hrows.
  2: { exists t. repeat split; auto. run Hσ. reflexivity. }
  destruct (astype_int_inv _ _ Hrows) as (_ & _ & _ & Hlen).
  destruct (astype_int (columns t)) as [cols|e] eqn:Hcols; simpl.
  - destruct (astype_int_inv _ _ Hcols) as (_ & _ & _ & Hlen').
    eexists. split; [apply lookup_insert_eq|]. simpl. repeat split; auto.
    + intros r' Hr'. now apply lookup_insert_ne.
    + run I. rewrite lookup_insert_eq. simpl. congruence.
  - eexists. split; [apply lookup_insert_eq|]. simpl. repeat split; auto.
    + intros r' Hr'. now apply lookup_insert_ne.
    + run I. rewrite lookup_insert_eq. simpl. congruence.
Qed.

(** X2.  Construction with [multi] is idempotent: once it has succeeded,
    constructing again on the same table succeeds and changes nothing. *)
Theorem init_multi_idempotent (σ σ' : store) (r : ref) (self : DFData) :
  __init__ r true σ = (σ', Ok self) ->
  __init__ r true σ' = (σ', Ok self).
Proof.
  intros Hfirst. destruct (σ !! r) as [t|] eqn:Hσ.
  2: { revert Hfirst. run Hσ. discriminate. }
  rewrite (init_multi_outcome _ _ _ Hσ) in Hfirst.
  destruct (astype_int (index t)) as [rows|e] eqn:Hrows; [|discriminate].
  destruct (astype_int (columns t)) as [cols|e] eqn:Hcols; [|discriminate].
  injection Hfirst as <- <-.
  destruct (astype_int_inv _ _ Hrows) as (zr & -> & Hzr & _).
  destruct (astype_int_inv _ _ Hcols) as (zc & -> & Hzc & _).
  rewrite (init_multi_outcome _ r _ (lookup_insert_eq _ _ _)). simpl.
  rewrite (astype_int_cast _ Hzr), (astype_int_cast _ Hzc).
  now rewrite insert_insert_eq.
Qed.

(** X3.  A construction with [multi] that fails is not undone.  Let a label
    of a table with plain labels be a string that [int] rejects.  When it is
    a row label, the table is left exactly as it was.  When it is a column
    label and the row labels were cast, the exception leaves the table with
    its row labels already cast and its column labels as they were. *)
Theorem init_multi_failure_state (σ : store) (r : ref) (t : DataFrame) (k : string) :
  σ !! r = Some t ->
  plain_labels t = true -> int_of_str k = None ->
  (LStr k ∈ index t -> exists e, __init__ r true σ = (σ, Raise e))
  /\ (forall rows,
        astype_int (index t) = Ok rows ->
        LStr k ∈ columns t ->
        exists e,
          __init__ r true σ
          = (<[r := {| index := rows; columns := columns t; data := data t |}]> σ,
             Raise e)).
Proof.
  intros Hσ _ Hk. rewrite (init_multi_outcome _ _ _ Hσ). split.
  - intros Hin. destruct (astype_int_rejected _ _ Hin Hk) as (e & -> & _). eauto.
  - intros rows -> Hin. destruct (astype_int_rejected _ _ Hin Hk) as (e & -> & _). eauto.
Qed.

(** X4.  Labels written as decimal strings are read back as the integers
    they stand for: on a table whose row labels are the strings [str(z)] of
    the 64-bit integers [rows], and likewise its column labels for [cols],
    construction with [multi] succeeds and makes [rows] and [cols] the
    labels of the table. *)
Theorem init_multi_reads_decimal_labels (σ : store) (r : ref) (t : DataFrame)
    (rows cols : list Z) :
  σ !! r = Some t ->
  index t = map (fun z => LStr (str_of_int z)) rows ->
  columns t = map (fun z => LStr (str_of_int z)) cols ->
  Forall (fun z => in_int64 z = true) rows ->
  Forall (fun z => in_int64 z = true) cols ->
  __init__ r true σ
  = (<[r := {| index := map LInt rows; columns := map LInt cols; data := data t |}]> σ,
     Ok {| df := r |}).
Proof.
  intros Hσ Hindex Hcolumns Hrows Hcols. apply init_multi_ok; [assumption | |].
  - rewrite Hindex. now apply decimal_labels_convert.
  - rewrite Hcolumns. now apply decimal_labels_convert.
Qed.

(** After a successful construction every label is an integer. *)
Lemma init_multi_Ok_inv (σ σ' : store) (r : ref) (self : DFData) :
  __init__ r true σ = (σ', Ok self) ->
  exists t rows cols,
    σ !! r = Some t
    /\ σ' = <[r := {| index := map LInt rows; columns := map LInt cols;
                      data := data t |}]> σ
    /\ self = {| df := r |}.
Proof.
  intros Hrun. destruct (σ !! r) as [t|] eqn:Hσ.
  2: { revert Hrun. run Hσ. discriminate. }
  rewrite (init_multi_outcome _ _ _ Hσ) in Hrun.
  destruct (astype_int (index t)) as [rows|e] eqn:Hrows; [|discriminate].
  destruct (astype_int (columns t)) as [cols|e] eqn:Hcols; [|discriminate].
  injection Hrun as <- <-.
  destruct (astype_int_inv _ _ Hrows) as (zr & -> & _).
  destruct (astype_int_inv _ _ Hcols) as (zc & -> & _).
  exists t, zr, zc. auto.
Qed.

Lemma lookup_map_LInt (zs : list Z) (i : nat) (z : Z) :
  map LInt zs !! i = Some (LInt z) <-> zs !! i = Some z.
Proof.
  revert i. induction zs as [|y zs IH]; intros [|i]; simpl;
    try (split; discriminate); [|apply IH].
  split; intros [= ->]; reflexivity.
Qed.

Lemma LStr_not_in_map_LInt (k : string) (zs : list Z) : LStr k ∉ map LInt zs.
Proof.
  induction zs as [|z zs IH]; simpl; intros H.
  - now apply elem_of_nil in H.
  - apply elem_of_cons in H. destruct H as [H|H]; [discriminate | auto].
Qed.

(** X5.  Construction with [multi] followed by a lookup.  When the labels
    of the table are plain and convert to the integers [rows] and [cols], [zr] occurs in
    [rows] at place [i] only and [zc] in [cols] at place [j] only, the
    lookup of [zr] and [zc] after the construction returns the number that
    the table held at row [i] and column [j] before it, scaled. *)
Theorem init_multi_then_lookup_by_integer (σ : store) (r : ref) (t : DataFrame)
    (rows cols : list Z) (zr zc : Z) (i j : nat) (x : float) (s : number) :
  σ !! r = Some t ->
  plain_labels t = true ->
  Forall2 (fun l z => int_of_label l = Ok z) (index t) rows ->
  Forall2 (fun l z => int_of_label l = Ok z) (columns t) cols ->
  (forall i', rows !! i' = Some zr <-> i' = i) ->
  (forall j', cols !! j' = Some zc <-> j' = j) ->
  cell_at t (i, j) = Num x ->
  exists σ',
    __init__ r true σ = (σ', Ok {| df := r |})
    /\ (get_time_step_value {| df := r |} (LInt zr) (LInt zc) s σ').2
       = Ok (Scalar (Num (x * float_of s)%float)).
Proof.
  intros Hσ _ Hrows Hcols Hi Hj Hx. eexists.
  split; [apply (init_multi_ok _ _ _ rows cols Hσ Hrows Hcols)|].
  set (t' := {| index := map LInt rows; columns := map LInt cols; data := data t |}).
  assert ((<[r := t']> σ) !! df {| df := r |} = Some t') as Hσ'
    by apply lookup_insert_eq.
  rewrite (get_time_step_value_result _ _ _ _ _ _ Hσ').
  rewrite (loc_single _ _ _ i j).
  - change (cell_at t' (i, j)) with (cell_at t (i, j)). now rewrite Hx.
  - intros i'. simpl. now rewrite lookup_map_LInt.
  - intros j'. simpl. now rewrite lookup_map_LInt.
Qed.

(** X6.  After a successful construction with [multi] every label of the
    table is an integer, so a lookup with a string as time step or as
    profile name raises [KeyError] for one of the two labels and leaves the
    table alone. *)
Theorem after_multi_strings_are_unknown (σ σ' : store) (r : ref) (self : DFData)
    (ts pn : label) (s : number) (k : string) :
  __init__ r true σ = (σ', Ok self) ->
  ts = LStr k \/ pn = LStr k ->
  exists k', (k' = ts \/ k' = pn)
             /\ get_time_step_value self ts pn s σ' = (σ', Raise (KeyError k')).
Proof.
  intros Hinit Hstr.
  destruct (init_multi_Ok_inv _ _ _ _ Hinit) as (t & rows & cols & Hσ & -> & ->).
  remember {| index := map LInt rows; columns := map LInt cols; data := data t |}
    as t' eqn:Et'.
  assert (ts ∉ index t' \/ pn ∉ columns t') as Habsent.
  { rewrite Et'. destruct Hstr as [-> | ->]; [left | right]; apply LStr_not_in_map_LInt. }
  destruct (loc_absent t' ts pn Habsent) as (k' & Hk' & Hloc).
  exists k'. split.
  - destruct Hk' as [[-> _]|[-> _]]; auto.
  - assert ((<[r := t']> σ) !! r = Some t') as Hσ' by apply lookup_insert_eq.
    run Hσ'. rewrite Hloc. reflexivity.
Qed.

(** ** The number of values *)

Lemma length_positions_from (n : nat) (k : label) (axis : list label) :
  length (positions_from n k axis)
  = length (List.filter (fun l => label_eqb l k) axis).
Proof.
  revert n. induction axis as [|l axis IH]; intros n; simpl; [reflexivity|].
  destruct (label_eqb l k); simpl; now rewrite IH.
Qed.

Lemma length_cells_of_scale (s : float) (v : value) :
  length (cells_of (scale_value s v)) = length (cells_of v).
Proof.
  destruct v as [c|cs|rows]; simpl; [reflexivity | apply length_map |].
  induction rows as [|row rows IH]; simpl; [reflexivity|].
  now rewrite !length_app, length_map, IH.
Qed.

Lemma length_frame_cells (t : DataFrame) (ii jj : list nat) :
  length (concat (values_2d t (map (fun i => map (pair i) jj) ii)))
  = length ii * length jj.
Proof.
  induction ii as [|i ii IH]; simpl; [reflexivity|].
  rewrite length_app, IH. unfold values_1d. now rewrite !length_map.
Qed.

Lemma loc_length (t : DataFrame) (ts pn : label) (sel : selection) :
  loc t ts pn = Ok sel ->
  length (cells_of (stored t sel))
  = length (positions ts (index t)) * length (positions pn (columns t)).
Proof.
  rewrite loc_cases.
  destruct (positions ts (index t)) as [|i0 [|i1 ii]];
    destruct (positions pn (columns t)) as [|j0 [|j1 jj]];
    try discriminate; intros [= <-]; unfold stored, cells_of, values_1d.
  - reflexivity.
  - simpl. rewrite !length_map. lia.
  - simpl. rewrite !length_map. lia.
  - apply (length_frame_cells t (i0 :: i1 :: ii) (j0 :: j1 :: jj)).
Qed.

(** X7.  The result holds one value for every pair of a row that carries
    the time step and a column that carries the profile name: their number
    is the number of occurrences of the time step among the row labels
    times the number of occurrences of the profile name among the column
    labels. *)
Theorem get_time_step_value_count (σ : store) (self : DFData) (t : DataFrame)
    (ts pn : label) (s : number) :
  σ !! df self = Some t ->
  ts ∈ index t -> pn ∈ columns t ->
  (forall i j, index t !! i = Some ts -> columns t !! j = Some pn ->
               is_num (cell_at t (i, j)) = true) ->
  exists v,
    (get_time_step_value self ts pn s σ).2 = Ok v
    /\ length (cells_of v)
       = length (List.filter (fun l => label_eqb l ts) (index t))
         * length (List.filter (fun l => label_eqb l pn) (columns t)).
Proof.
  intros Hσ Hts Hpn Hnum.
  destruct (loc_present t ts pn Hts Hpn) as [sel Hsel].
  exists (scale_value (float_of s) (stored t sel)). split.
  - rewrite (get_time_step_value_result _ _ _ _ _ _ Hσ), Hsel.
    pose proof (loc_numeric t ts pn sel s Hsel Hnum) as Hmul.
    destruct sel; simpl; rewrite Hmul; reflexivity.
  - rewrite length_cells_of_scale, (loc_length _ _ _ _ Hsel).
    unfold positions. now rewrite !length_positions_from.
Qed.

(** ** What a read can change *)

(** X8.  Whatever pandas does about views, and whether the call returns or
    raises, [get_time_step_value] leaves the row labels and the column
    labels of its table as they are, changes no cell other than those whose
    row carries the time step and whose column carries the profile name, and
    touches no other table. *)
Theorem get_time_step_value_writes_only_selected_cells (σ : store) (self : DFData)
    (t : DataFrame) (ts pn : label) (s : number) :
  σ !! df self = Some t ->
  exists t',
    (get_time_step_value self ts pn s σ).1 !! df self = Some t'
    /\ index t' = index t /\ columns t' = columns t
    /\ (forall i j, ~ (index t !! i = Some ts /\ columns t !! j = Some pn) ->
                    cell_at t' (i, j) = cell_at t (i, j))
    /\ (forall r, r <> df self ->
                  (get_time_step_value self ts pn s σ).1 !! r = σ !! r).
Proof.
  intros Hσ.
  destruct (get_time_step_value_touches σ self t ts pn s Hσ) as (t' & Ht' & Hi & Hc & Hcells).
  exists t'. split; [exact Ht'|]. split; [exact Hi|]. split; [exact Hc|]. split.
  - intros i j Hij. now apply (Hcells (i, j)).
  - apply (get_time_step_value_frame σ self t ts pn s Hσ).
Qed.

Lemma values_1d_ext (t t' : DataFrame) (ps : list (nat * nat)) :
  (forall p, p ∈ ps -> cell_at t' p = cell_at t p) ->
  values_1d t' ps = values_1d t ps.
Proof.
  induction ps as [|p ps IH]; intros H; simpl; [reflexivity|].
  rewrite (H p) by left. f_equal. apply IH. intros q Hq. apply H. now right.
Qed.

Lemma values_2d_ext (t t' : DataFrame) (pss : list (list (nat * nat))) :
  (forall ps p, ps ∈ pss -> p ∈ ps -> cell_at t' p = cell_at t p) ->
  values_2d t' pss = values_2d t pss.
Proof.
  induction pss as [|ps pss IH]; intros H; simpl; [reflexivity|].
  rewrite (values_1d_ext t t' ps) by (intros p Hp; apply (H ps); [left | assumption]).
  f_equal. apply IH. intros qs q Hqs Hq. apply (H qs); [now right | assumption].
Qed.

(** Two tables with the same labels and the same cells under two labels
    give the same result for these labels. *)
Lemma get_time_step_value_agrees (σ σ' : store) (self : DFData) (t t' : DataFrame)
    (ts pn : label) (s : number) :
  σ !! df self = Some t -> σ' !! df self = Some t' ->
  index t' = index t -> columns t' = columns t ->
  (forall p, index t !! p.1 = Some ts -> columns t !! p.2 = Some pn ->
             cell_at t' p = cell_at t p) ->
  (get_time_step_value self ts pn s σ').2 = (get_time_step_value self ts pn s σ).2.
Proof.
  intros Hσ Hσ' Hi Hc Hcells.
  rewrite (get_time_step_value_result _ _ _ _ _ _ Hσ).
  rewrite (get_time_step_value_result _ _ _ _ _ _ Hσ').
  assert (forall p, p.1 ∈ positions ts (index t) -> p.2 ∈ positions pn (columns t) ->
                    cell_at t' p = cell_at t p) as Hpos.
  { intros p H1 H2. apply Hcells; now apply elem_of_positions. }
  clear Hcells. rewrite !loc_cases, Hi, Hc.
  destruct (positions ts (index t)) as [|i0 [|i1 ii]];
    destruct (positions pn (columns t)) as [|j0 [|j1 jj]]; try reflexivity.
  - rewrite (Hpos (i0, j0)) by (simpl; left). reflexivity.
  - rewrite (values_1d_ext t t'); [reflexivity|]. intros p Hp.
    apply (elem_of_row_positions i0 (j0 :: j1 :: jj)) in Hp. destruct Hp as [H1 H2].
    apply Hpos; [rewrite H1; left | assumption].
  - rewrite (values_1d_ext t t'); [reflexivity|]. intros p Hp.
    apply (elem_of_column_positions (i0 :: i1 :: ii) j0) in Hp. destruct Hp as [H1 H2].
    apply Hpos; [assumption | rewrite H2; left].
  - rewrite (values_2d_ext t t'); [reflexivity|]. intros ps p Hps Hp.
    destruct (elem_of_frame_positions (i0 :: i1 :: ii) (j0 :: j1 :: jj) _ _ Hps Hp).
    now apply Hpos.
Qed.

Lemma get_time_steps_len_result (σ : store) (self : DFData) (t : DataFrame) :
  σ !! df self = Some t -> get_time_steps_len self σ = (σ, Ok (length (index t))).
Proof. intros Hσ. run Hσ. reflexivity. Qed.

Lemma repr_agrees (σ σ' : store) (self : DFData) (t t' : DataFrame) :
  σ !! df self = Some t -> σ' !! df self = Some t' ->
  length (index t') = length (index t) -> columns t' = columns t ->
  (__repr__ self σ').2 = (__repr__ self σ).2.
Proof.
  intros Hσ Hσ' Hi Hc. run Hσ. run Hσ'. rewrite Hi, Hc.
  destruct (Nat.leb (length (columns t)) 10); reflexivity.
Qed.

(** X9.  A read does not disturb other reads.  After a call for one time
    step and profile name, whatever it returned and whatever pandas does
    about views, a call for another time step or another profile name
    returns what it would have returned before, the number of time steps is
    the same, and so is the string representation. *)
Theorem reads_do_not_disturb_other_reads (σ : store) (self : DFData) (t : DataFrame)
    (ts pn ts2 pn2 : label) (s s2 : number) :
  σ !! df self = Some t ->
  ts2 <> ts \/ pn2 <> pn ->
  (get_time_step_value self ts2 pn2 s2 (get_time_step_value self ts pn s σ).1).2
  = (get_time_step_value self ts2 pn2 s2 σ).2
  /\ (get_time_steps_len self (get_time_step_value self ts pn s σ).1).2
     = Ok (length (index t))
  /\ (__repr__ self (get_time_step_value self ts pn s σ).1).2 = (__repr__ self σ).2.
Proof.
  intros Hσ Hother.
  destruct (get_time_step_value_touches σ self t ts pn s Hσ) as (t' & Ht' & Hi & Hc & Hcells).
  split; [|split].
  - apply (get_time_step_value_agrees σ _ self t t'); auto.
    intros p H1 H2. apply Hcells. intros [H3 H4]. destruct Hother; congruence.
  - rewrite (get_time_steps_len_result _ _ _ Ht'). simpl. now rewrite Hi.
  - apply (repr_agrees σ _ self t t'); auto. now rewrite Hi.
Qed.

(** ** The default scale factor *)

Lemma imul_1d_one (buf : list cell) : (imul_1d buf (PyFloat 1)).1 = buf.
Proof.
  induction buf as [|c buf IH]; simpl; [reflexivity|].
  destruct c as [x|x]; simpl; [|reflexivity].
  destruct (imul_1d buf (PyFloat 1)) as [rest e]. simpl in *. now rewrite mul_one_r, IH.
Qed.

Lemma imul_2d_one (buf : list (list cell)) : (imul_2d buf (PyFloat 1)).1 = buf.
Proof.
  induction buf as [|row buf IH]; simpl; [reflexivity|].
  pose proof (imul_1d_one row) as Hrow.
  destruct (imul_1d row (PyFloat 1)) as [row' [e|]]; simpl in *; subst row'; [reflexivity|].
  destruct (imul_2d buf (PyFloat 1)) as [rest e]. simpl in *. now rewrite IH.
Qed.

Lemma alter_fixed {A : Type} (f : A -> A) (l : list A) (i : nat) :
  (forall x, l !! i = Some x -> f x = x) -> alter f i l = l.
Proof.
  revert i. induction l as [|y l IH]; intros [|i] H; simpl; try reflexivity.
  - f_equal. now apply H.
  - f_equal. apply IH. exact H.
Qed.

(** Storing into a cell what it holds changes nothing. *)
Lemma set_cell_same (t : DataFrame) (p : nat * nat) : set_cell t p (cell_at t p) = t.
Proof.
  destruct t as [ix cl d]. unfold set_cell, cell_at. simpl. f_equal.
  apply alter_fixed. intros row Hrow. rewrite Hrow. simpl.
  destruct (row !! p.2) as [c|] eqn:E.
  - now apply list_insert_id.
  - apply list_insert_ge. now apply lookup_ge_None.
Qed.

Lemma put_1d_same (t : DataFrame) (ps : list (nat * nat)) :
  put_1d t ps (values_1d t ps) = t.
Proof.
  induction ps as [|p ps IH]; simpl; [reflexivity|]. now rewrite set_cell_same.
Qed.

Lemma put_2d_same (t : DataFrame) (pss : list (list (nat * nat))) :
  put_2d t pss (values_2d t pss) = t.
Proof.
  induction pss as [|ps pss IH]; simpl; [reflexivity|]. now rewrite put_1d_same.
Qed.

Lemma get_time_step_value_one_frame (σ : store) (self : DFData) (ts pn : label) :
  (get_time_step_value self ts pn (PyFloat 1) σ).1 = σ.
Proof.
  destruct (σ !! df self) as [t|] eqn:Hσ.
  2: { run Hσ. reflexivity. }
  run Hσ. destruct (loc t ts pn) as [[c|ps|pss]|e]; simpl; [| | |reflexivity].
  - destruct (mul_cell c (PyFloat 1)); reflexivity.
  - pose proof (imul_1d_one (values_1d t ps)) as Hres.
    destruct (imul_1d (values_1d t ps) (PyFloat 1)) as [res failure]. simpl in Hres. subst res.
    rewrite put_1d_same.
    destruct (shares_memory t ts pn), failure; simpl; try reflexivity;
      now rewrite (insert_id _ _ _ Hσ).
  - pose proof (imul_2d_one (values_2d t pss)) as Hres.
    destruct (imul_2d (values_2d t pss) (PyFloat 1)) as [res failure]. simpl in Hres.
    subst res.
    rewrite put_2d_same.
    destruct (shares_memory t ts pn), failure; simpl; try reflexivity;
      now rewrite (insert_id _ _ _ Hσ).
Qed.

(** X10.  With the default scale factor 1.0 a call is a pure read: it
    leaves the whole store, and so every cell of the table, as it was, for
    every table, every time step and profile name, whether it returns or
    raises, and also when the array it multiplies in place is a view of the
    table. *)
Theorem get_time_step_value_default_scale_is_pure (σ : store) (self : DFData)
    (ts pn : label) :
  (get_time_step_value self ts pn default_scale_factor σ).1 = σ.
Proof. apply get_time_step_value_one_frame. Qed.

(** ** Repeated reads *)

(** X12.  Two successive calls with the same arguments return the same
    result, and leave the store as the first call found it, whenever the
    first call cannot write into the table: when the lookup gives a
    scalar, when the array it multiplies is a copy, and when the scale
    factor is the default 1.0. *)
Theorem repeated_read_agrees_without_shared_write (σ : store) (self : DFData)
    (t : DataFrame) (ts pn : label) (s : number) :
  σ !! df self = Some t ->
  (exists c, loc t ts pn = Ok (SelScalar c))
  \/ shares_memory t ts pn = false
  \/ s = default_scale_factor ->
  get_time_step_value self ts pn s (get_time_step_value self ts pn s σ).1
  = get_time_step_value self ts pn s σ
  /\ (get_time_step_value self ts pn s σ).1 = σ.
Proof.
  intros Hσ Hcase.
  assert ((get_time_step_value self ts pn s σ).1 = σ) as Hframe.
  { destruct (get_time_step_value_frame σ self t ts pn s Hσ) as (_ & _ & Hcopy & Hscalar).
    destruct Hcase as [[c Hc]|[Hc| ->]]; eauto. apply get_time_step_value_one_frame. }
  now rewrite Hframe.
Qed.

(** ** What a shared array writes *)

Lemma mul_nan_l (s : float) : (nan * s)%float = nan.
Proof.
  apply Prim2SF_inj. rewrite mul_spec.
  change (Prim2SF nan) with S754_nan. unfold SF64mul, SFmul.
  destruct (Prim2SF s); reflexivity.
Qed.

(** A cell that is stored is read back, unless the table has no such cell. *)
Lemma cell_at_set_cell_eq (t : DataFrame) (p : nat * nat) (c : cell) :
  cell_at (set_cell t p c) p = c
  \/ (cell_at (set_cell t p c) p = Num nan /\ cell_at t p = Num nan).
Proof.
  unfold cell_at, set_cell. simpl. rewrite list_lookup_alter_eq.
  destruct (data t !! p.1) as [row|]; simpl; [|now right].
  destruct (decide (p.2 < length row)) as [Hlt|Hge].
  - left. now rewrite list_lookup_insert_eq.
  - right. rewrite list_insert_ge by lia.
    rewrite (proj2 (lookup_ge_None row p.2)) by lia. auto.
Qed.

Lemma put_1d_written (t : DataFrame) (s : float) (ps : list (nat * nat)) (t0 : DataFrame)
    (p : nat * nat) :
  NoDup ps ->
  (forall q, q ∈ ps -> cell_at t0 q = cell_at t q) ->
  p ∈ ps ->
  cell_at (put_1d t0 ps (map (scale_cell s) (values_1d t ps))) p
  = scale_cell s (cell_at t p).
Proof.
  revert t0. induction ps as [|q ps IH]; intros t0 Hnd Hsame Hp.
  - now apply elem_of_nil in Hp.
  - apply NoDup_cons in Hnd. destruct Hnd as [Hq Hnd]. simpl.
    apply elem_of_cons in Hp. destruct Hp as [->|Hp].
    + rewrite cell_at_put_1d_other by assumption.
      destruct (cell_at_set_cell_eq t0 q (scale_cell s (cell_at t q)))
        as [H|[H1 H2]]; [exact H|].
      rewrite H1. rewrite Hsame in H2 by left. rewrite H2. simpl.
      now rewrite mul_nan_l.
    + apply IH; [assumption | | assumption].
      intros q' Hq'. rewrite cell_at_set_cell_ne; [apply Hsame; now right|].
      intros ->. contradiction.
Qed.

Lemma NoDup_increasing (l : list nat) : StronglySorted lt l -> NoDup l.
Proof.
  induction 1 as [|a l _ IH Ha]; constructor; [|assumption].
  intros Hin. rewrite Forall_forall in Ha. apply Ha in Hin. lia.
Qed.

Lemma NoDup_row_positions (i : nat) (jj : list nat) :
  NoDup jj -> NoDup (map (pair i) jj).
Proof.
  induction 1 as [|j jj Hj _ IH]; simpl; constructor; [|assumption].
  intros Hin. apply elem_of_row_positions in Hin. now destruct Hin.
Qed.

Lemma NoDup_column_positions (ii : list nat) (j : nat) :
  NoDup ii -> NoDup (map (fun i => (i, j)) ii).
Proof.
  induction 1 as [|i ii Hi _ IH]; simpl; constructor; [|assumption].
  intros Hin. apply elem_of_column_positions in Hin. now destruct Hin.
Qed.

Lemma put_2d_written (t : DataFrame) (s : float) (ii jj : list nat) (t0 : DataFrame)
    (i j : nat) :
  NoDup ii -> NoDup jj ->
  (forall i' j', i' ∈ ii -> j' ∈ jj -> cell_at t0 (i', j') = cell_at t (i', j')) ->
  i ∈ ii -> j ∈ jj ->
  cell_at (put_2d t0 (map (fun i => map (pair i) jj) ii)
             (map (map (scale_cell s))
                (values_2d t (map (fun i => map (pair i) jj) ii)))) (i, j)
  = scale_cell s (cell_at t (i, j)).
Proof.
  intros Hii Hjj. revert t0. induction Hii as [|i0 ii Hi0 _ IH]; intros t0 Hsame Hi Hj.
  - now apply elem_of_nil in Hi.
  - simpl. apply elem_of_cons in Hi. destruct Hi as [->|Hi].
    + rewrite cell_at_put_2d_other.
      * apply put_1d_written; [now apply NoDup_row_positions | |].
        -- intros q Hq. apply elem_of_row_positions in Hq. destruct q as [a b], Hq as [Ha Hb].
           simpl in *. subst a. apply Hsame; [left | assumption].
        -- now apply elem_of_row_positions.
      * intros ps Hps Hin.
        destruct (elem_of_frame_positions ii jj ps (i0, j) Hps Hin) as [H _].
        contradiction.
    + apply IH; [|assumption..].
      intros i' j' Hi' Hj'. rewrite cell_at_put_1d_other.
      * apply Hsame; [now right | assumption].
      * intros Hin. apply elem_of_row_positions in Hin. destruct Hin as [E _].
        simpl in E. subst i'. contradiction.
Qed.

Lemma loc_series_inv (t : DataFrame) (ts pn : label) (ps : list (nat * nat)) :
  loc t ts pn = Ok (SelSeries ps) ->
  NoDup ps
  /\ (forall i j, index t !! i = Some ts -> columns t !! j = Some pn -> (i, j) ∈ ps).
Proof.
  rewrite loc_cases. intros Hloc.
  pose proof (NoDup_increasing _ (positions_sorted ts (index t))) as Hndi.
  pose proof (NoDup_increasing _ (positions_sorted pn (columns t))) as Hndj.
  assert (forall i j, index t !! i = Some ts -> columns t !! j = Some pn ->
                      i ∈ positions ts (index t) /\ j ∈ positions pn (columns t)) as Hpos.
  { intros i j Hi Hj. split; now apply elem_of_positions. }
  destruct (positions ts (index t)) as [|i0 [|i1 ii]];
    destruct (positions pn (columns t)) as [|j0 [|j1 jj]];
    try discriminate; injection Hloc as <-.
  - split; [now apply (NoDup_row_positions i0 (j0 :: j1 :: jj))|].
    intros i j Hi Hj. destruct (Hpos i j Hi Hj) as [Hi' Hj'].
    apply list_elem_of_singleton in Hi'. subst i.
    now apply (elem_of_row_positions i0 (j0 :: j1 :: jj)).
  - split; [now apply (NoDup_column_positions (i0 :: i1 :: ii) j0)|].
    intros i j Hi Hj. destruct (Hpos i j Hi Hj) as [Hi' Hj'].
    apply list_elem_of_singleton in Hj'. subst j.
    now apply (elem_of_column_positions (i0 :: i1 :: ii) j0).
Qed.

Lemma loc_frame_inv (t : DataFrame) (ts pn : label) (pss : list (list (nat * nat))) :
  loc t ts pn = Ok (SelFrame pss) ->
  pss = map (fun i => map (pair i) (positions pn (columns t))) (positions ts (index t)).
Proof.
  rewrite loc_cases.
  destruct (positions ts (index t)) as [|i0 [|i1 ii]];
    destruct (positions pn (columns t)) as [|j0 [|j1 jj]];
    try discriminate; now intros [= <-].
Qed.

Lemma loc_scalar_inv (t : DataFrame) (ts pn : label) (c : cell) :
  loc t ts pn = Ok (SelScalar c) ->
  length (positions ts (index t)) = 1 /\ length (positions pn (columns t)) = 1.
Proof.
  rewrite loc_cases.
  destruct (positions ts (index t)) as [|i0 [|i1 ii]];
    destruct (positions pn (columns t)) as [|j0 [|j1 jj]];
    try discriminate; auto.
Qed.

(** X11.  What the in-place product does to a table that shares its buffer
    with the array.  When the time step or the profile name occurs more than
    once, so that the lookup gives an array, and the cells under the two
    labels hold numbers, a call on such a table multiplies every one of
    these cells of the table by the scale factor. *)
Theorem shared_array_scales_selected_cells (σ : store) (self : DFData) (t : DataFrame)
    (ts pn : label) (s : number) :
  σ !! df self = Some t ->
  shares_memory t ts pn = true ->
  ts ∈ index t -> pn ∈ columns t ->
  1 < length (List.filter (fun l => label_eqb l ts) (index t))
  \/ 1 < length (List.filter (fun l => label_eqb l pn) (columns t)) ->
  (forall i j, index t !! i = Some ts -> columns t !! j = Some pn ->
               is_num (cell_at t (i, j)) = true) ->
  exists t',
    (get_time_step_value self ts pn s σ).1 !! df self = Some t'
    /\ (forall i j, index t !! i = Some ts -> columns t !! j = Some pn ->
                    cell_at t' (i, j) = scale_cell (float_of s) (cell_at t (i, j))).
Proof.
  intros Hσ Hshared Hts Hpn Hmany Hnum.
  destruct (loc_present t ts pn Hts Hpn) as [sel Hsel].
  pose proof (loc_numeric t ts pn sel s Hsel Hnum) as Hmul.
  rewrite <- !(length_positions_from 0) in Hmany.
  run Hσ. rewrite Hsel. destruct sel as [c|ps|pss]; simpl.
  - exfalso. destruct (loc_scalar_inv _ _ _ _ Hsel) as [H1 H2].
    unfold positions in H1, H2. lia.
  - rewrite Hmul, Hshared. simpl. eexists. split; [apply lookup_insert_eq|].
    destruct (loc_series_inv _ _ _ _ Hsel) as [Hnd Hall].
    intros i j Hi Hj. apply put_1d_written; auto.
  - rewrite Hmul, Hshared. simpl. eexists. split; [apply lookup_insert_eq|].
    rewrite (loc_frame_inv _ _ _ _ Hsel).
    intros i j Hi Hj.
    apply (put_2d_written t (float_of s) (positions ts (index t))
             (positions pn (columns t)) t i j).
    + apply NoDup_increasing, positions_sorted.
    + apply NoDup_increasing, positions_sorted.
    + reflexivity.
    + now apply elem_of_positions.
    + now apply elem_of_positions.
Qed.

End Methods.

(** * The methods on concrete tables *)

(** The scenario of C1: the cell under time step 1 and profile "p2" holds
    4.0; scaled by 2.0 the value is 8.0, and unscaled it is 4.0. *)
Lemma get_time_step_value_scales_witness :
  (get_time_step_value copies {| df := 1%positive |} (LInt 1) (LStr "p2") (PyFloat 2)
     {[1%positive := profiles]}).2 = Ok (Scalar (Num 8))
  /\ (get_time_step_value copies {| df := 1%positive |} (LInt 1) (LStr "p2") (PyFloat 1)
        {[1%positive := profiles]}).2 = Ok (Scalar (Num 4)).
Proof.
  destruct (get_time_step_value_scales copies {[1%positive := profiles]}
              {| df := 1%positive |} profiles (LInt 1) (LStr "p2") (PyFloat 2))
    as (v & _ & Hone & Hscaled & Hplain).
  - reflexivity.
  - repeat constructor.
  - repeat constructor.
  - intros [|[|[|i]]] [|[|j]] Hi Hj; try discriminate; reflexivity.
  - assert (v = Scalar (cell_at profiles (1, 1))) as ->.
    { apply Hone.
      - intros [|[|[|i]]]; split; intros H; try discriminate; try reflexivity; lia.
      - intros [|[|[|j]]]; split; intros H; try discriminate; try reflexivity; lia. }
    split; [exact Hscaled | exact Hplain].
Defined.

(** The scenario of C2: there is no time step 5. *)
Lemma get_time_step_value_unknown_label_witness :
  exists k,
    ((k = LInt 5 /\ LInt 5 ∉ index profiles)
     \/ (k = LStr "p2" /\ LStr "p2" ∉ columns profiles))
    /\ loc profiles (LInt 5) (LStr "p2") = Raise (KeyError k)
    /\ get_time_step_value copies {| df := 1%positive |} (LInt 5) (LStr "p2") (PyFloat 1)
         {[1%positive := profiles]}
       = ({[1%positive := profiles]}, Raise (KeyError k)).
Proof.
  apply (get_time_step_value_unknown_label copies {[1%positive := profiles]}
           {| df := 1%positive |} profiles (LInt 5) (LStr "p2") (PyFloat 1)).
  - reflexivity.
  - left. intros H. repeat (apply elem_of_cons in H; destruct H as [H|H]; [discriminate|]).
    now apply elem_of_nil in H.
Defined.

(** The scenario of C3: three time steps, then two after the table changed
    under the wrapper, and the changed cell is the one that is read. *)
Lemma accessors_read_current_table_witness :
  get_time_steps_len {| df := 1%positive |} {[1%positive := profiles]}
  = ({[1%positive := profiles]}, Ok 3)
  /\ get_time_steps_len {| df := 1%positive |} {[1%positive := profiles_later]}
     = ({[1%positive := profiles_later]}, Ok 2)
  /\ (get_time_step_value copies {| df := 1%positive |} (LInt 1) (LStr "p2") (PyFloat 2)
        {[1%positive := profiles_later]}).2 = Ok (Scalar (Num 14)).
Proof.
  destruct (accessors_read_current_table copies {[1%positive := profiles]}
              {| df := 1%positive |} profiles profiles_later (LInt 1) (LStr "p2")
              (PyFloat 2))
    as (Hlen & Hlen' & _ & Hcell).
  - reflexivity.
  - split; [exact Hlen|]. split; [exact Hlen'|].
    apply (Hcell 1 1 7%float).
    + intros [|[|[|i]]]; split; intros H; try discriminate; try reflexivity; lia.
    + intros [|[|[|j]]]; split; intros H; try discriminate; try reflexivity; lia.
    + reflexivity.
Defined.

(** The scenario of C4: the labels "0", "1", "2" become 0, 1, 2 in the
    table of the caller. *)
Lemma init_multi_casts_labels_in_place_witness :
  __init__ 1%positive true {[1%positive := csv_table]}
  = ({[1%positive := csv_table_cast]}, Ok {| df := 1%positive |})
  /\ Forall2 (fun l z => label_eqb l (LInt z) = true) (index csv_table_cast) [0; 1; 2]%Z
  /\ Forall2 (fun l z => label_eqb l (LInt z) = true) (columns csv_table_cast) [0; 1; 2]%Z.
Proof.
  assert (({[1%positive := csv_table]} : store) !! 1%positive = Some csv_table) as Hσ
    by reflexivity.
  assert (Forall2 (fun l z => int_of_label l = Ok z) (index csv_table) [0; 1; 2]%Z)
    as Hrows by repeat constructor.
  assert (Forall2 (fun l z => int_of_label l = Ok z) (columns csv_table) [0; 1; 2]%Z)
    as Hcols by repeat constructor.
  exact (init_multi_casts_labels_in_place _ _ _ _ _ Hσ eq_refl Hrows Hcols).
Defined.

(** C6 as stated fails on a table in which a row label occurs twice: the
    profile name "p" labels a single column of [twin_rows], and the result
    for time step 0 is an array of two numbers, not a scalar. *)
Lemma single_column_result_is_not_always_scalar :
  LInt 0 ∈ index twin_rows
  /\ positions (LStr "p") (columns twin_rows) = [0]
  /\ (get_time_step_value copies {| df := 1%positive |} (LInt 0) (LStr "p")
        default_scale_factor {[1%positive := twin_rows]}).2
     = Ok (Array1 [Num 1; Num 2])
  /\ ~ (exists c, (get_time_step_value copies {| df := 1%positive |} (LInt 0) (LStr "p")
                     default_scale_factor {[1%positive := twin_rows]}).2
                  = Ok (Scalar c)).
Proof.
  split; [left|]. split; [reflexivity|]. split; [reflexivity|].
  intros [c H]. discriminate H.
Qed.

(** C6 on [twin_columns]: the profile name "a" labels columns 0 and 1. *)
Lemma get_time_step_value_shape_witness :
  (get_time_step_value copies {| df := 1%positive |} (LInt 0) (LStr "a") (PyFloat 2)
     {[1%positive := twin_columns]}).2 = Ok (Array1 [Num 2; Num 4]).
Proof.
  apply (get_time_step_value_shape copies {[1%positive := twin_columns]}
           {| df := 1%positive |} twin_columns (LInt 0) (LStr "a") (PyFloat 2) 0 [0; 1]).
  - reflexivity.
  - intros [|[|i]]; split; intros H; try discriminate; try reflexivity; lia.
  - repeat constructor.
  - intros [|[|[|[|j]]]]; split; intros H; try discriminate; try reflexivity;
      try (repeat constructor);
      repeat (apply elem_of_cons in H; destruct H as [H|H]; [discriminate|]);
      now apply elem_of_nil in H.
  - discriminate.
  - intros j H. repeat (apply elem_of_cons in H; destruct H as [->|H]; [reflexivity|]).
    now apply elem_of_nil in H.
Defined.

(** The scenario of C7 with the printer [plain_ndarray_str]. *)
Lemma repr_describes_table_witness :
  __repr__ plain_ndarray_str {| df := 1%positive |} {[1%positive := profiles]}
  = ({[1%positive := profiles]}, Ok "DFData with 3 rows and 2 columns: ['p1' 'p2']").
Proof.
  destruct (repr_describes_table plain_ndarray_str {[1%positive := profiles]}
              {| df := 1%positive |} profiles)
    as (s & Hrun & _ & _ & _ & Hshort & _).
  - reflexivity.
  - rewrite Hrun, Hshort; [reflexivity | simpl; lia].
Defined.

(** C8 fails on a table whose selections are views.  The profile name "a"
    labels two columns of [twin_columns], so the first call multiplies, in
    place, an array that shares the buffer of the table.  The second call,
    with the same arguments and with nobody else touching the table in
    between, finds the doubled cells and returns other numbers than the
    first. *)
Theorem repeated_read_of_shared_array_differs :
  (get_time_step_value views {| df := 1%positive |} (LInt 0) (LStr "a") (PyFloat 2)
     {[1%positive := twin_columns]}).2 = Ok (Array1 [Num 2; Num 4])
  /\ (get_time_step_value views {| df := 1%positive |} (LInt 0) (LStr "a") (PyFloat 2)
        (get_time_step_value views {| df := 1%positive |} (LInt 0) (LStr "a") (PyFloat 2)
           {[1%positive := twin_columns]}).1).2 = Ok (Array1 [Num 4; Num 8])
  /\ (get_time_step_value views {| df := 1%positive |} (LInt 0) (LStr "a") (PyFloat 2)
        (get_time_step_value views {| df := 1%positive |} (LInt 0) (LStr "a") (PyFloat 2)
           {[1%positive := twin_columns]}).1).2
     <> (get_time_step_value views {| df := 1%positive |} (LInt 0) (LStr "a") (PyFloat 2)
           {[1%positive := twin_columns]}).2.
Proof.
  split; [reflexivity|]. split; [reflexivity|].
  intros H.
  apply (f_equal (fun res => match res with
                             | Ok (Array1 (Num x :: _)) => PrimFloat.eqb x 2
                             | _ => false
                             end)) in H.
  vm_compute in H. discriminate H.
Qed.

(** The scenarios of C9: the column label "load" does not convert, and the
    cell under "note" is text. *)
Lemma failures_surface_where_they_occur_witness :
  (exists σ' e,
      __init__ 1%positive true {[1%positive := named_columns]} = (σ', Raise e)
      /\ (e = TypeError \/ e = OverflowError)
      /\ σ' = {[1%positive := named_columns_half_cast]})
  /\ (exists σ',
        get_time_step_value copies {| df := 1%positive |} (LInt 0) (LStr "note") (PyFloat 1)
          {[1%positive := text_cells]} = (σ', Raise TypeError)
        /\ σ' = {[1%positive := text_cells]}).
Proof.
  split.
  - destruct (proj1 (failures_surface_where_they_occur copies
                       {[1%positive := named_columns]} named_columns)
                1%positive "load")
      as (σ' & e & Hrun & He & _ & _ & Hstate).
    + reflexivity.
    + reflexivity.
    + reflexivity.
    + right. repeat constructor.
    + exists σ', e. split; [exact Hrun|]. split; [exact He|].
      apply (Hstate [LInt 0; LInt 1]). reflexivity.
  - destruct (proj2 (failures_surface_where_they_occur copies
                       {[1%positive := text_cells]} text_cells)
                {| df := 1%positive |} (LInt 0) (LStr "note") 1%float 0 1 "n/a")
      as (σ' & Hrun & _ & _ & Hcopy).
    + reflexivity.
    + reflexivity.
    + reflexivity.
    + reflexivity.
    + exists σ'. split; [exact Hrun | now apply Hcopy].
Defined.

(** C9 as stated fails in two places.  The cell under "note" holds text,
    and with the integer 2 as scale factor the product is no error: the
    call returns the text twice over.  And the failure of a construction can
    leave a partial result: the column label "load" of [named_columns] does
    not convert, the constructor raises, and the table keeps the row labels
    that were cast before. *)
Lemma failure_may_return_a_value_or_leave_a_partial_cast :
  cell_at text_cells (0, 1) = Str "n/a"
  /\ get_time_step_value copies {| df := 1%positive |} (LInt 0) (LStr "note")
       (PyInt long_2) {[1%positive := text_cells]}
     = ({[1%positive := text_cells]}, Ok (Scalar (Str "n/an/a")))
  /\ int_of_str "load" = None
  /\ __init__ 1%positive true {[1%positive := named_columns]}
     = ({[1%positive := named_columns_half_cast]}, Raise TypeError)
  /\ index named_columns_half_cast <> index named_columns.
Proof.
  split; [reflexivity|]. split; [reflexivity|]. split; [reflexivity|].
  split; [reflexivity|]. discriminate.
Qed.

(** The scenario of C10: time step 20 is the second row of [sparse_steps]. *)
Lemma addressing_is_by_label_witness :
  __init__ 1%positive false {[1%positive := sparse_steps]}
  = ({[1%positive := sparse_steps]}, Ok {| df := 1%positive |})
  /\ (get_time_step_value copies {| df := 1%positive |} (LInt 20) (LStr "p")
        default_scale_factor {[1%positive := sparse_steps]}).2 = Ok (Scalar (Num 2)).
Proof.
  destruct (addressing_is_by_label copies {[1%positive := sparse_steps]} 1%positive
              sparse_steps (LInt 20) (LStr "p"))
    as (Hinit & v & Hv & _ & Hone).
  - reflexivity.
  - repeat constructor.
  - repeat constructor.
  - intros [|[|[|[|i]]]] [|[|j]] Hi Hj; try discriminate; reflexivity.
  - split; [exact Hinit|]. rewrite Hv. f_equal. apply (Hone 1 0).
    + intros [|[|[|[|i]]]]; split; intros H; try discriminate; try reflexivity; lia.
    + intros [|[|j]]; split; intros H; try discriminate; try reflexivity; lia.
Defined.

(** C5 fails on a table whose selections are views.  The profile name "a"
    labels two columns of [twin_columns], so the lookup gives a [Series] and
    [*=] multiplies its array in place.  When that array shares the buffer
    of the table, the call with scale factor 2.0 doubles the two cells of
    the table itself, and the same call repeated returns other numbers.
    When the array is a copy the table stays as it was. *)
Theorem get_time_step_value_rewrites_shared_cells :
  get_time_step_value views {| df := 1%positive |} (LInt 0) (LStr "a") (PyFloat 2)
    {[1%positive := twin_columns]}
  = ({[1%positive := twin_columns_scaled]}, Ok (Array1 [Num 2; Num 4]))
  /\ twin_columns_scaled <> twin_columns
  /\ (get_time_step_value views {| df := 1%positive |} (LInt 0) (LStr "a") (PyFloat 2)
        {[1%positive := twin_columns_scaled]}).2 = Ok (Array1 [Num 4; Num 8])
  /\ get_time_step_value copies {| df := 1%positive |} (LInt 0) (LStr "a") (PyFloat 2)
       {[1%positive := twin_columns]}
     = ({[1%positive := twin_columns]}, Ok (Array1 [Num 2; Num 4])).
Proof.
  split; [reflexivity|]. split; [|split; reflexivity].
  intros H.
  apply (f_equal (fun t => match cell_at t (0, 0) with
                           | Num x => PrimFloat.eqb x 1
                           | Str _ => false
                           end)) in H.
  vm_compute in H. discriminate H.
Qed.

(** * The further properties on concrete tables *)

(** X1 on [named_columns], whose construction raises: two time steps
    before and after. *)
Lemma init_multi_keeps_cells_and_shape_witness :
  (get_time_steps_len {| df := 1%positive |}
     (__init__ 1%positive true {[1%positive := named_columns]}).1).2 = Ok 2
  /\ exists t', (__init__ 1%positive true {[1%positive := named_columns]}).1 !! 1%positive
                = Some t'
                /\ data t' = data named_columns.
Proof.
  destruct (init_multi_keeps_cells_and_shape {[1%positive := named_columns]} 1%positive
              named_columns) as (t' & Ht' & Hdata & _ & _ & _ & Hlen).
  - reflexivity.
  - split; [now rewrite Hlen | eauto].
Defined.

(** X2 on [csv_table]. *)
Lemma init_multi_idempotent_witness :
  __init__ 1%positive true {[1%positive := csv_table_cast]}
  = ({[1%positive := csv_table_cast]}, Ok {| df := 1%positive |}).
Proof.
  apply (init_multi_idempotent {[1%positive := csv_table]}).
  reflexivity.
Defined.

(** X3 on [named_rows], left as it was, and on [named_columns], left with
    its row labels cast. *)
Lemma init_multi_failure_state_witness :
  (exists e, __init__ 1%positive true {[1%positive := named_rows]}
             = ({[1%positive := named_rows]}, Raise e))
  /\ (exists e, __init__ 1%positive true {[1%positive := named_columns]}
                = ({[1%positive := named_columns_half_cast]}, Raise e)).
Proof.
  assert (({[1%positive := named_rows]} : store) !! 1%positive = Some named_rows)
    as Hrows by reflexivity.
  assert (({[1%positive := named_columns]} : store) !! 1%positive = Some named_columns)
    as Hcols by reflexivity.
  assert (astype_int (index named_columns) = Ok [LInt 0; LInt 1]) as Hcast
    by reflexivity.
  split.
  - apply (proj1 (init_multi_failure_state _ _ _ "total" Hrows eq_refl eq_refl)).
    repeat constructor.
  - assert (LStr "load" ∈ columns named_columns) as Hin by repeat constructor.
    exact (proj2 (init_multi_failure_state _ _ _ "load" Hcols eq_refl eq_refl)
             _ Hcast Hin).
Defined.

(** X4 on [csv_table]: the labels "0", "1", "2" are [str] of 0, 1, 2. *)
Lemma init_multi_reads_decimal_labels_witness :
  __init__ 1%positive true {[1%positive := csv_table]}
  = ({[1%positive := csv_table_cast]}, Ok {| df := 1%positive |}).
Proof.
  assert (({[1%positive := csv_table]} : store) !! 1%positive = Some csv_table)
    as Hσ by reflexivity.
  assert (index csv_table = map (fun z => LStr (str_of_int z)) [0; 1; 2]%Z)
    as Hindex by reflexivity.
  assert (columns csv_table = map (fun z => LStr (str_of_int z)) [0; 1; 2]%Z)
    as Hcolumns by reflexivity.
  assert (Forall (fun z => in_int64 z = true) [0; 1; 2]%Z) as Hrange
    by repeat constructor.
  exact (init_multi_reads_decimal_labels _ _ _ _ _ Hσ Hindex Hcolumns Hrange Hrange).
Defined.

(** X5 on [csv_table]: the cell under the strings "1" and "2" is found
    under the integers 1 and 2 after the construction. *)
Lemma init_multi_then_lookup_by_integer_witness :
  exists σ',
    __init__ 1%positive true {[1%positive := csv_table]}
    = (σ', Ok {| df := 1%positive |})
    /\ (get_time_step_value copies {| df := 1%positive |} (LInt 1) (LInt 2) (PyFloat 2)
          σ').2
       = Ok (Scalar (Num 12)).
Proof.
  assert (({[1%positive := csv_table]} : store) !! 1%positive = Some csv_table)
    as Hσ by reflexivity.
  assert (Forall2 (fun l z => int_of_label l = Ok z) (index csv_table) [0; 1; 2]%Z)
    as Hrows by repeat constructor.
  assert (Forall2 (fun l z => int_of_label l = Ok z) (columns csv_table) [0; 1; 2]%Z)
    as Hcols by repeat constructor.
  assert (forall i', [0; 1; 2]%Z !! i' = Some 1%Z <-> i' = 1) as Hi.
  { intros [|[|[|[|i]]]]; split; intros H; try discriminate; try reflexivity; lia. }
  assert (forall j', [0; 1; 2]%Z !! j' = Some 2%Z <-> j' = 2) as Hj.
  { intros [|[|[|[|j]]]]; split; intros H; try discriminate; try reflexivity; lia. }
  assert (cell_at csv_table (1, 2) = Num 6) as Hx by reflexivity.
  exact (init_multi_then_lookup_by_integer copies _ _ _ _ _ _ _ _ _ _ (PyFloat 2)
           Hσ eq_refl Hrows Hcols Hi Hj Hx).
Defined.

(** X6 on [csv_table]: after the construction the string "1" is no time
    step any more. *)
Lemma after_multi_strings_are_unknown_witness :
  exists k', (k' = LStr "1" \/ k' = LInt 2)
             /\ get_time_step_value copies {| df := 1%positive |} (LStr "1") (LInt 2)
                  (PyFloat 1) {[1%positive := csv_table_cast]}
                = ({[1%positive := csv_table_cast]}, Raise (KeyError k')).
Proof.
  apply (after_multi_strings_are_unknown copies {[1%positive := csv_table]}
           {[1%positive := csv_table_cast]} 1%positive {| df := 1%positive |}
           (LStr "1") (LInt 2) (PyFloat 1) "1").
  - reflexivity.
  - now left.
Defined.

(** X7 on [twin_columns]: one row labelled 0, two columns labelled "a". *)
Lemma get_time_step_value_count_witness :
  exists v,
    (get_time_step_value copies {| df := 1%positive |} (LInt 0) (LStr "a") (PyFloat 2)
       {[1%positive := twin_columns]}).2 = Ok v
    /\ length (cells_of v) = 2.
Proof.
  apply (get_time_step_value_count copies {[1%positive := twin_columns]}
           {| df := 1%positive |} twin_columns (LInt 0) (LStr "a") (PyFloat 2)).
  - reflexivity.
  - repeat constructor.
  - repeat constructor.
  - intros [|[|i]] [|[|[|[|j]]]] Hi Hj; try discriminate; reflexivity.
Defined.

(** X8 on [twin_columns] with a shared array: the cell under "b" keeps its
    number 3.0. *)
Lemma get_time_step_value_writes_only_selected_cells_witness :
  exists t',
    (get_time_step_value views {| df := 1%positive |} (LInt 0) (LStr "a") (PyFloat 2)
       {[1%positive := twin_columns]}).1 !! 1%positive = Some t'
    /\ index t' = index twin_columns /\ columns t' = columns twin_columns
    /\ cell_at t' (0, 2) = Num 3.
Proof.
  destruct (get_time_step_value_writes_only_selected_cells views
              {[1%positive := twin_columns]} {| df := 1%positive |} twin_columns
              (LInt 0) (LStr "a") (PyFloat 2))
    as (t' & Ht' & Hi & Hc & Hcells & _).
  - reflexivity.
  - exists t'. split; [exact Ht'|]. split; [exact Hi|]. split; [exact Hc|].
    rewrite (Hcells 0 2); [reflexivity|]. intros [_ H]. discriminate H.
Defined.

(** X9 on [twin_columns] with a shared array: after the read of "a" the
    read of "b" still returns 3.0 and there is still one time step. *)
Lemma reads_do_not_disturb_other_reads_witness :
  (get_time_step_value views {| df := 1%positive |} (LInt 0) (LStr "b") (PyFloat 1)
     (get_time_step_value views {| df := 1%positive |} (LInt 0) (LStr "a") (PyFloat 2)
        {[1%positive := twin_columns]}).1).2 = Ok (Scalar (Num 3))
  /\ (get_time_steps_len {| df := 1%positive |}
        (get_time_step_value views {| df := 1%positive |} (LInt 0) (LStr "a") (PyFloat 2)
           {[1%positive := twin_columns]}).1).2 = Ok 1.
Proof.
  destruct (reads_do_not_disturb_other_reads plain_ndarray_str views
              {[1%positive := twin_columns]} {| df := 1%positive |} twin_columns
              (LInt 0) (LStr "a") (LInt 0) (LStr "b") (PyFloat 2) (PyFloat 1))
    as (Hread & Hlen & _).
  - reflexivity.
  - right. discriminate.
  - split; [rewrite Hread; reflexivity | exact Hlen].
Defined.

(** X11 on [twin_columns] with a shared array: the two cells under "a" are
    doubled in the table. *)
Lemma shared_array_scales_selected_cells_witness :
  exists t',
    (get_time_step_value views {| df := 1%positive |} (LInt 0) (LStr "a") (PyFloat 2)
       {[1%positive := twin_columns]}).1 !! 1%positive = Some t'
    /\ cell_at t' (0, 0) = Num 2 /\ cell_at t' (0, 1) = Num 4.
Proof.
  destruct (shared_array_scales_selected_cells views {[1%positive := twin_columns]}
              {| df := 1%positive |} twin_columns (LInt 0) (LStr "a") (PyFloat 2))
    as (t' & Ht' & Hcells).
  - reflexivity.
  - reflexivity.
  - repeat constructor.
  - repeat constructor.
  - right. simpl. lia.
  - intros [|[|i]] [|[|[|[|j]]]] Hi Hj; try discriminate; reflexivity.
  - exists t'. split; [exact Ht'|].
    split; [apply (Hcells 0 0) | apply (Hcells 0 1)]; reflexivity.
Defined.

(** X12 on [profiles] with shared arrays: time step 1 and "p2" give a
    scalar, and reading it twice gives 8.0 twice. *)
Lemma repeated_read_agrees_without_shared_write_witness :
  get_time_step_value views {| df := 1%positive |} (LInt 1) (LStr "p2") (PyFloat 2)
    (get_time_step_value views {| df := 1%positive |} (LInt 1) (LStr "p2") (PyFloat 2)
       {[1%positive := profiles]}).1
  = ({[1%positive := profiles]}, Ok (Scalar (Num 8))).
Proof.
  destruct (repeated_read_agrees_without_shared_write views {[1%positive := profiles]}
              {| df := 1%positive |} profiles (LInt 1) (LStr "p2") (PyFloat 2))
    as [Hsame _].
  - reflexivity.
  - left. eexists. reflexivity.
  - rewrite Hsame. reflexivity.
Defined.
